(** * vesc_hw_interface: the wheel controller and its counter time-derivative

    A shallow embedding of [VescWheelController] from
    [vesc_hw_interface/src/vesc_wheel_controller.cpp].

    - A C++ [double] is a primitive binary64 float ([PrimFloat.float]); the
      arithmetic is IEEE 754 round-to-nearest-even, every operation rounded on
      its own (no contraction into fused multiply-add, no extended precision).
    - A [uint16_t] is a [Z] in [0, 2^16); the subtraction of two of them is done
      in [int] after the usual promotion, so it does not wrap.
    - A C array is a map from the index to the cell, with the number of its
      cells; a store at an index past the last cell does not reach the cells
      and is recorded apart.
    - The object is a record; a method is a function from the object to the
      updated object together with what it returns or sends to the interface.
    - The class declaration ([vesc_wheel_controller.h]) and the driver
      ([vesc_driver]) are not among the sources: the types of the fields and
      the shape of the interface follow the specification and the way the
      methods use them. *)

From Stdlib Require Import String ZArith List Bool Lia.
From Stdlib Require Import Floats.
From Stdlib Require Uint63.
Import ListNotations.

Local Open Scope Z_scope.

(* Decimal constants of the source are read as the compiler reads them: the
   nearest double. *)
Set Warnings "-inexact-float".

(** ** Numeric conversions *)

Definition double := float.
Bind Scope float_scope with double.

(** [M_PI] of <cmath>: the double nearest to pi. *)
Definition M_PI : double := 0x1.921fb54442d18p+1%float.

(** [static_cast<double>(n)] for an [int] or a [long]: the nearest double. *)
Definition double_of_int (z : Z) : double :=
  SF2Prim (binary_normalize prec emax z 0 false).

(** [LONG_MAX] and [LONG_MIN] of <climits>, for the 64-bit [long] of the LP64
    platforms the package builds on. *)
Definition LONG_MAX : Z := 2 ^ 63 - 1.
Definition LONG_MIN : Z := - 2 ^ 63.

(** The integer part of a double, rounded towards zero ([None] for an
    infinity or a NaN). *)
Definition trunc_double (d : double) : option Z :=
  match Prim2SF d with
  | S754_zero _ => Some 0
  | S754_finite s m e =>
      let v := if 0 <=? e then Z.pos m * 2 ^ e else Z.pos m / 2 ^ (- e) in
      Some (if s then - v else v)
  | _ => None
  end.

(** [INT_MAX] and [INT_MIN] of <climits>, for the 32-bit [int] of the same
    platforms. *)
Definition INT_MAX : Z := 2 ^ 31 - 1.
Definition INT_MIN : Z := - 2 ^ 31.

(** [static_cast<uint16_t>(d)].  The language defines the conversion when
    the integer part of [d] is between 0 and 65535, and the result is that
    integer.  Elsewhere the conversion is undefined; the model takes what the
    compilers emit for it on x86-64, a conversion to a 32-bit [int]
    (cvttsd2si) of which the low sixteen bits are kept: the integer part
    modulo 2^16 when it fits [int], and 0 when it does not, for an infinity
    and for a NaN. *)
Definition static_cast_uint16 (d : double) : Z :=
  match trunc_double d with
  | Some z => if (INT_MIN <=? z) && (z <=? INT_MAX) then z mod 65536 else 0
  | None => 0
  end.

(** ** Arrays *)

Definition array (A : Type) := nat -> A.

Definition aset {A : Type} (a : array A) (i : nat) (v : A) : array A :=
  fun j => if Nat.eqb j i then v else a j.

(** ** The estimator: [counterTD] and the fields it owns *)

(** Modelled from the spec: the declaration of the three fields is missing.
    The specification gives "a fixed-depth (10-slot) history" of pairs of an
    observed count, "truncated to the same narrow integer width as the
    sensor", and a dwell, "a fixed-depth (10-slot) history of derivative
    outputs", and a counter of the ticks since the last change.
    [counter_changed_log_] has [HISTORY_DEPTH] rows of two cells,
    [counter_changed_log_[i][0]] the count of slot [i] and
    [counter_changed_log_[i][1]] its dwell, and [counter_td_tmp_] has
    [HISTORY_DEPTH] cells; the cells of the log and the counter are taken as
    [uint16_t], the type every store into column 0 converts to. *)
Definition HISTORY_DEPTH : nat := 10.

(** A store at an index that is not below [HISTORY_DEPTH]: the row, the
    column and the value for the log, the index and the value for the
    derivatives. *)
Inductive StrayStore :=
  | stray_log (row column : nat) (v : Z)
  | stray_td (index : nat) (v : double).

(** The three fields, and [stray_stores], which is not a field of the class:
    the stores the methods made past the last row, in the order they were
    made.  What such a store overwrites depends on the layout of the object,
    which the missing declaration fixes; the model leaves the three fields as
    they are and keeps the store here. *)
Record Estimator := mkEstimator {
  counter_changed_single_ : Z;
  counter_changed_log_ : array (array Z);
  counter_td_tmp_ : array double;
  stray_stores : list StrayStore
}.

Definition log_set (log : array (array Z)) (i j : nat) (v : Z) : array (array Z) :=
  aset log i (aset (log i) j v).

(** [counter_changed_single_ = v;] *)
Definition set_counter_changed_single (v : Z) (e : Estimator) : Estimator :=
  mkEstimator v (counter_changed_log_ e) (counter_td_tmp_ e) (stray_stores e).

(** [counter_changed_log_[i][j] = v;] *)
Definition store_log (i j : nat) (v : Z) (e : Estimator) : Estimator :=
  if (i <? HISTORY_DEPTH)%nat then
    mkEstimator (counter_changed_single_ e) (log_set (counter_changed_log_ e) i j v)
      (counter_td_tmp_ e) (stray_stores e)
  else
    mkEstimator (counter_changed_single_ e) (counter_changed_log_ e)
      (counter_td_tmp_ e) (stray_stores e ++ [stray_log i j v]).

(** [counter_td_tmp_[i] = v;] *)
Definition store_td (i : nat) (v : double) (e : Estimator) : Estimator :=
  if (i <? HISTORY_DEPTH)%nat then
    mkEstimator (counter_changed_single_ e) (counter_changed_log_ e)
      (aset (counter_td_tmp_ e) i v) (stray_stores e)
  else
    mkEstimator (counter_changed_single_ e) (counter_changed_log_ e)
      (counter_td_tmp_ e) (stray_stores e ++ [stray_td i v]).

(** The body of the loop of the reset branch, for one [i]. *)
Definition reset_slot (c : Z) (e : Estimator) (i : nat) : Estimator :=
  let e := store_log i 0 c e in
  let e := store_log i 1 100 e in
  store_td i 0%float e.

(** [for (int i = 0; i < 10; i++) counter_changed_log_[10 - i][0] = counter_changed_log_[9 - i][0];]
    The first round stores at row 10, past the last row: the store goes to
    [stray_stores]. *)
Definition shift_counts (e : Estimator) : Estimator :=
  fold_left
    (fun e i => store_log (10 - i) 0 (counter_changed_log_ e (9 - i)%nat 0%nat) e)
    (seq 0 10) e.

(** [for (int i = 1; i < 10; i++) counter_td_tmp_[10 - i] = counter_td_tmp_[9 - i];] *)
Definition shift_td (e : Estimator) : Estimator :=
  fold_left (fun e i => store_td (10 - i) (counter_td_tmp_ e (9 - i)%nat) e)
    (seq 1 9) e.

(** The sanity clamp at the end of [counterTD]. *)
Definition sanity (output : double) : double :=
  if (100 <? abs output)%float then 0%float else output.

Definition counterTD (count_in : double) (reset : bool) (e : Estimator)
  : Estimator * double :=
  if reset then
    let e := set_counter_changed_single 1 e in
    (fold_left (reset_slot (static_cast_uint16 count_in)) (seq 0 10) e, 0%float)
  else
    let e :=
      if negb (counter_changed_log_ e 0%nat 0%nat =? static_cast_uint16 count_in) then
        let e := shift_counts e in
        let e := store_log 0 0 (static_cast_uint16 count_in) e in
        let e := store_log 0 1 (counter_changed_single_ e) e in
        set_counter_changed_single 1 e
      else
        let e :=
          if counter_changed_log_ e 0%nat 1%nat <? counter_changed_single_ e
          then store_log 0 1 (counter_changed_single_ e) e
          else e in
        if counter_changed_single_ e <? 100
        then set_counter_changed_single (counter_changed_single_ e + 1) e
        else e in
    let e := shift_td e in
    let e := store_td 0
      (double_of_int (counter_changed_log_ e 0%nat 0%nat
                      - counter_changed_log_ e 1%nat 0%nat)
       / double_of_int (counter_changed_log_ e 0%nat 1%nat))%float e in
    let output := counter_td_tmp_ e 0%nat in
    (e, sanity output).

(** ** The controller *)

(** Modelled from the spec: the interface of the driver is missing.  It is
    a sink with the operations "set duty cycle" and "request next state
    sample"; the calls made on [interface_ptr_] are recorded in order. *)
Inductive InterfaceCall :=
  | setDutyCycle (duty : double)
  | requestState.

(** Modelled from the spec: the declaration of the fields is missing.  The
    gains, limits, rate, estimates and error terms are real-valued in the
    specification and are doubles here, the two flags are [bool];
    [num_motor_pole_pairs_] is a double, as [setMotorPolePairs] converts its
    argument.  The timer and the interface pointer are left out, and
    [estimator] groups the three fields [counterTD] owns. *)
Record VescWheelController := mkController {
  kp_ : double;
  ki_ : double;
  kd_ : double;
  i_clamp_ : double;
  duty_limiter_ : double;
  antiwindup_ : bool;
  control_rate_ : double;
  num_motor_pole_pairs_ : double;
  gear_ratio_ : double;
  torque_const_ : double;
  reset_ : bool;
  position_sens_ : double;
  velocity_reference_ : double;
  position_pulse_ : double;
  prev_position_pulse_ : double;
  velocity_sens_ : double;
  effort_sens_ : double;
  target_pulse_ : double;
  error_ : double;
  error_dt_ : double;
  error_integ_ : double;
  error_integ_prev_ : double;
  estimator : Estimator
}.

Definition set_reset (v : bool) (c : VescWheelController) :=
  mkController (kp_ c) (ki_ c) (kd_ c) (i_clamp_ c) (duty_limiter_ c) (antiwindup_ c)
    (control_rate_ c) (num_motor_pole_pairs_ c) (gear_ratio_ c) (torque_const_ c)
    v (position_sens_ c) (velocity_reference_ c) (position_pulse_ c)
    (prev_position_pulse_ c) (velocity_sens_ c) (effort_sens_ c) (target_pulse_ c)
    (error_ c) (error_dt_ c) (error_integ_ c) (error_integ_prev_ c) (estimator c).

Definition set_position_sens (v : double) (c : VescWheelController) :=
  mkController (kp_ c) (ki_ c) (kd_ c) (i_clamp_ c) (duty_limiter_ c) (antiwindup_ c)
    (control_rate_ c) (num_motor_pole_pairs_ c) (gear_ratio_ c) (torque_const_ c)
    (reset_ c) v (velocity_reference_ c) (position_pulse_ c)
    (prev_position_pulse_ c) (velocity_sens_ c) (effort_sens_ c) (target_pulse_ c)
    (error_ c) (error_dt_ c) (error_integ_ c) (error_integ_prev_ c) (estimator c).

Definition set_velocity_sens (v : double) (c : VescWheelController) :=
  mkController (kp_ c) (ki_ c) (kd_ c) (i_clamp_ c) (duty_limiter_ c) (antiwindup_ c)
    (control_rate_ c) (num_motor_pole_pairs_ c) (gear_ratio_ c) (torque_const_ c)
    (reset_ c) (position_sens_ c) (velocity_reference_ c) (position_pulse_ c)
    (prev_position_pulse_ c) v (effort_sens_ c) (target_pulse_ c)
    (error_ c) (error_dt_ c) (error_integ_ c) (error_integ_prev_ c) (estimator c).

Definition set_target_pulse (v : double) (c : VescWheelController) :=
  mkController (kp_ c) (ki_ c) (kd_ c) (i_clamp_ c) (duty_limiter_ c) (antiwindup_ c)
    (control_rate_ c) (num_motor_pole_pairs_ c) (gear_ratio_ c) (torque_const_ c)
    (reset_ c) (position_sens_ c) (velocity_reference_ c) (position_pulse_ c)
    (prev_position_pulse_ c) (velocity_sens_ c) (effort_sens_ c) v
    (error_ c) (error_dt_ c) (error_integ_ c) (error_integ_prev_ c) (estimator c).

Definition set_error (v : double) (c : VescWheelController) :=
  mkController (kp_ c) (ki_ c) (kd_ c) (i_clamp_ c) (duty_limiter_ c) (antiwindup_ c)
    (control_rate_ c) (num_motor_pole_pairs_ c) (gear_ratio_ c) (torque_const_ c)
    (reset_ c) (position_sens_ c) (velocity_reference_ c) (position_pulse_ c)
    (prev_position_pulse_ c) (velocity_sens_ c) (effort_sens_ c) (target_pulse_ c)
    v (error_dt_ c) (error_integ_ c) (error_integ_prev_ c) (estimator c).

Definition set_error_dt (v : double) (c : VescWheelController) :=
  mkController (kp_ c) (ki_ c) (kd_ c) (i_clamp_ c) (duty_limiter_ c) (antiwindup_ c)
    (control_rate_ c) (num_motor_pole_pairs_ c) (gear_ratio_ c) (torque_const_ c)
    (reset_ c) (position_sens_ c) (velocity_reference_ c) (position_pulse_ c)
    (prev_position_pulse_ c) (velocity_sens_ c) (effort_sens_ c) (target_pulse_ c)
    (error_ c) v (error_integ_ c) (error_integ_prev_ c) (estimator c).

Definition set_error_integ (v : double) (c : VescWheelController) :=
  mkController (kp_ c) (ki_ c) (kd_ c) (i_clamp_ c) (duty_limiter_ c) (antiwindup_ c)
    (control_rate_ c) (num_motor_pole_pairs_ c) (gear_ratio_ c) (torque_const_ c)
    (reset_ c) (position_sens_ c) (velocity_reference_ c) (position_pulse_ c)
    (prev_position_pulse_ c) (velocity_sens_ c) (effort_sens_ c) (target_pulse_ c)
    (error_ c) (error_dt_ c) v (error_integ_prev_ c) (estimator c).

Definition set_error_integ_prev (v : double) (c : VescWheelController) :=
  mkController (kp_ c) (ki_ c) (kd_ c) (i_clamp_ c) (duty_limiter_ c) (antiwindup_ c)
    (control_rate_ c) (num_motor_pole_pairs_ c) (gear_ratio_ c) (torque_const_ c)
    (reset_ c) (position_sens_ c) (velocity_reference_ c) (position_pulse_ c)
    (prev_position_pulse_ c) (velocity_sens_ c) (effort_sens_ c) (target_pulse_ c)
    (error_ c) (error_dt_ c) (error_integ_ c) v (estimator c).

Definition set_estimator (v : Estimator) (c : VescWheelController) :=
  mkController (kp_ c) (ki_ c) (kd_ c) (i_clamp_ c) (duty_limiter_ c) (antiwindup_ c)
    (control_rate_ c) (num_motor_pole_pairs_ c) (gear_ratio_ c) (torque_const_ c)
    (reset_ c) (position_sens_ c) (velocity_reference_ c) (position_pulse_ c)
    (prev_position_pulse_ c) (velocity_sens_ c) (effort_sens_ c) (target_pulse_ c)
    (error_ c) (error_dt_ c) (error_integ_ c) (error_integ_prev_ c) v.

(** [this->counterTD(count_in, reset)] on the controller's estimator. *)
Definition call_counterTD (count_in : double) (reset : bool) (c : VescWheelController)
  : VescWheelController * double :=
  let '(e, out) := counterTD count_in reset (estimator c) in
  (set_estimator e c, out).

(** [std::max], [std::min] and [std::clamp] of <algorithm> on doubles. *)
Definition std_max (a b : double) : double := if (a <? b)%float then b else a.
Definition std_min (a b : double) : double := if (b <? a)%float then b else a.
Definition std_clamp (v lo hi : double) : double := std_min (std_max v lo) hi.

(** Lines 61-73 of [control]: resynchronise on [reset], else advance the
    target by the commanded velocity converted to pulses per tick. *)
Definition control_resync (target_velocity current_pulse : double) (reset : bool)
    (c : VescWheelController) : VescWheelController :=
  let motor_hall_ppr := num_motor_pole_pairs_ c in
  if reset then
    let c := set_target_pulse current_pulse c in
    let c := set_error 0%float c in
    let c := set_error_dt 0%float c in
    let c := set_error_integ 0%float c in
    let c := set_error_integ_prev 0%float c in
    fst (call_counterTD current_pulse true c)
  else
    set_target_pulse
      (target_pulse_ c
       + target_velocity * motor_hall_ppr / (double_of_int 2 * M_PI) / control_rate_ c)%float
      c.

(** The block under [// overflow check]. *)
Definition overflow_check (target_pulse : double) : double :=
  if (double_of_int LONG_MAX <? target_pulse)%float
  then (target_pulse + double_of_int LONG_MIN)%float
  else if (target_pulse <? double_of_int LONG_MIN)%float
  then (target_pulse + double_of_int LONG_MAX)%float
  else target_pulse.

(** The block under [// limit error]. *)
Definition limit_error (target_pulse current_pulse count_deviation_limit : double)
  : double :=
  if (count_deviation_limit <? target_pulse - current_pulse)%float
  then (current_pulse + count_deviation_limit)%float
  else if (target_pulse - current_pulse <? - count_deviation_limit)%float
  then (current_pulse - count_deviation_limit)%float
  else target_pulse.

(** [kp_ * error_ + ki_ * error_integ_ + kd_ * error_dt_] *)
Definition pid_duty (c : VescWheelController) : double :=
  (kp_ c * error_ c + ki_ c * error_integ_ c + kd_ c * error_dt_ c)%float.

(** Lines 96-100 of [control]: the estimator is read and the error terms are
    updated. *)
Definition control_pid (target_velocity current_pulse : double)
    (c : VescWheelController) : VescWheelController :=
  let motor_hall_ppr := num_motor_pole_pairs_ c in
  let '(c, td) := call_counterTD current_pulse false c in
  let c := set_velocity_sens
             (td * 2.0 * M_PI / motor_hall_ppr * control_rate_ c)%float c in
  let c := set_error_dt (target_velocity - velocity_sens_ c)%float c in
  let c := set_error (target_pulse_ c - current_pulse)%float c in
  let c := set_error_integ_prev (error_integ_ c) c in
  set_error_integ (error_integ_ c + error_ c / control_rate_ c)%float c.

(** Lines 105-122: the roll-back of the integral when the duty saturates. *)
Definition windup_rollback (c : VescWheelController) (duty : double)
  : VescWheelController * double :=
  if (duty_limiter_ c <? duty)%float then
    let duty := duty_limiter_ c in
    if (error_integ_prev_ c <? error_integ_ c)%float then
      let c := set_error_integ (error_integ_prev_ c) c in
      (c, pid_duty c)
    else (c, duty)
  else if (duty <? - duty_limiter_ c)%float then
    let duty := (- duty_limiter_ c)%float in
    if (error_integ_ c <? error_integ_prev_ c)%float then
      let c := set_error_integ (error_integ_prev_ c) c in
      (c, pid_duty c)
    else (c, duty)
  else (c, duty).

(** Lines 123-130: the clamp of the integral term. *)
Definition integ_clamp (c : VescWheelController) : VescWheelController :=
  if (i_clamp_ c <? ki_ c * error_integ_ c)%float then
    set_error_integ (i_clamp_ c / ki_ c)%float c
  else if (ki_ c * error_integ_ c <? - i_clamp_ c)%float then
    set_error_integ (- i_clamp_ c / ki_ c)%float c
  else c.

(** Lines 103-131: [if (antiwindup_) { ... }]. *)
Definition control_antiwindup (c : VescWheelController) (duty : double)
  : VescWheelController * double :=
  if antiwindup_ c then
    let '(c, duty) := windup_rollback c duty in
    (integ_clamp c, duty)
  else (c, duty).

(** What [control] hands to [setDutyCycle]. *)
Definition emitted_duty (target_velocity duty : double) : double :=
  if (abs target_velocity <? 0.0001)%float then 0.0%float else duty.

(** Lines 58-100 of [control]: the target is updated, corrected and limited,
    and the error terms are computed. *)
Definition control_terms (target_velocity current_pulse : double) (reset : bool)
    (c : VescWheelController) : VescWheelController :=
  let count_deviation_limit := num_motor_pole_pairs_ c in
  let c := control_resync target_velocity current_pulse reset c in
  let c := set_target_pulse (overflow_check (target_pulse_ c)) c in
  let c := set_target_pulse
             (limit_error (target_pulse_ c) current_pulse count_deviation_limit) c in
  control_pid target_velocity current_pulse c.

Definition control (target_velocity current_pulse : double) (reset : bool)
    (c : VescWheelController) : VescWheelController * list InterfaceCall :=
  let c := control_terms target_velocity current_pulse reset c in
  let duty := pid_duty c in
  let '(c, duty) := control_antiwindup c duty in
  let duty := std_clamp duty (- duty_limiter_ c) (duty_limiter_ c) in
  (c, [setDutyCycle (emitted_duty target_velocity duty)]).

(** The first four statements of [controlTimerCallback]: the position is
    integrated, and a jump of the count asks for a resynchronisation. *)
Definition integrate_position (c : VescWheelController) : VescWheelController :=
  let diff := (position_pulse_ c - prev_position_pulse_ c)%float in
  let '(diff, c) :=
    if (num_motor_pole_pairs_ c / double_of_int 4 <? abs diff)%float
    then (double_of_int 0, set_reset true c)
    else (diff, c) in
  set_position_sens
    (position_sens_ c + diff / num_motor_pole_pairs_ c * 2.0 * M_PI)%float c.

Definition controlTimerCallback (c : VescWheelController)
  : VescWheelController * list InterfaceCall :=
  let c := integrate_position c in
  let '(c, calls) := control (velocity_reference_ c) (position_pulse_ c) (reset_ c) c in
  let calls := calls ++ [requestState] in
  (set_reset (abs (velocity_reference_ c) <? 0.0001)%float c, calls).

(** [setMotorPolePairs]. *)
Definition setMotorPolePairs (motor_pole_pairs : Z) (c : VescWheelController) :=
  mkController (kp_ c) (ki_ c) (kd_ c) (i_clamp_ c) (duty_limiter_ c) (antiwindup_ c)
    (control_rate_ c) (double_of_int motor_pole_pairs) (gear_ratio_ c) (torque_const_ c)
    (reset_ c) (position_sens_ c) (velocity_reference_ c) (position_pulse_ c)
    (prev_position_pulse_ c) (velocity_sens_ c) (effort_sens_ c) (target_pulse_ c)
    (error_ c) (error_dt_ c) (error_integ_ c) (error_integ_prev_ c) (estimator c).

(** [setTargetVelocity]. *)
Definition setTargetVelocity (velocity_reference : double) (c : VescWheelController) :=
  mkController (kp_ c) (ki_ c) (kd_ c) (i_clamp_ c) (duty_limiter_ c) (antiwindup_ c)
    (control_rate_ c) (num_motor_pole_pairs_ c) (gear_ratio_ c) (torque_const_ c)
    (reset_ c) (position_sens_ c) velocity_reference (position_pulse_ c)
    (prev_position_pulse_ c) (velocity_sens_ c) (effort_sens_ c) (target_pulse_ c)
    (error_ c) (error_dt_ c) (error_integ_ c) (error_integ_prev_ c) (estimator c).

(** Modelled from the spec: the packet classes of the driver are missing.  A
    sample carries its kind, the motor current, the velocity and the position
    count; [updateSensor] reads it through [getName], [getMotorCurrent],
    [getVelocityERPM] and [getPosition]. *)
Record VescPacket := mkPacket {
  getName : string;
  getMotorCurrent : double;
  getVelocityERPM : double;
  getPosition : double
}.

(** [updateSensor]. *)
Definition updateSensor (packet : VescPacket) (c : VescWheelController) :=
  if String.eqb (getName packet) "Values"%string then
    let current := getMotorCurrent packet in
    mkController (kp_ c) (ki_ c) (kd_ c) (i_clamp_ c) (duty_limiter_ c) (antiwindup_ c)
      (control_rate_ c) (num_motor_pole_pairs_ c) (gear_ratio_ c) (torque_const_ c)
      (reset_ c) (position_sens_ c) (velocity_reference_ c) (getPosition packet)
      (position_pulse_ c) (velocity_sens_ c)
      (current * torque_const_ c / gear_ratio_ c)%float (target_pulse_ c)
      (error_ c) (error_dt_ c) (error_integ_ c) (error_integ_prev_ c) (estimator c)
  else c.

(** The parameters [init] reads from the node handle: [None] when the
    parameter is not set, and the default of the source is taken. *)
Record Params := mkParams {
  motor_Kp : option double;
  motor_Ki : option double;
  motor_Kd : option double;
  motor_i_clamp : option double;
  motor_duty_limiter : option double;
  motor_antiwindup : option bool;
  motor_control_rate : option double
}.

Definition param {A : Type} (p : option A) (default : A) : A :=
  match p with Some v => v | None => default end.

(** [init], for a non-null interface: the fields it does not assign keep what
    the object [c] had. *)
Definition init (nh : Params) (c : VescWheelController) : VescWheelController :=
  mkController
    (param (motor_Kp nh) 0.005%float) (param (motor_Ki nh) 0.005%float)
    (param (motor_Kd nh) 0.0025%float) (param (motor_i_clamp nh) 0.2%float)
    (param (motor_duty_limiter nh) 1.0%float) (param (motor_antiwindup nh) true)
    (param (motor_control_rate nh) 50.0%float)
    (num_motor_pole_pairs_ c) (gear_ratio_ c) (torque_const_ c)
    true 0.0%float 0.0%float 0.0%float 0.0%float 0.0%float 0.0%float
    (target_pulse_ c) (error_ c) (error_dt_ c) (error_integ_ c) (error_integ_prev_ c)
    (estimator c).

(** A run of the estimator, one call per tick: the outputs in tick order. *)
Fixpoint run_counterTD (calls : list (double * bool)) (e : Estimator)
  : Estimator * list double :=
  match calls with
  | [] => (e, [])
  | (count_in, reset) :: rest =>
      let '(e, out) := counterTD count_in reset e in
      let '(e, outs) := run_counterTD rest e in
      (e, out :: outs)
  end.

(** A run of the controller on ticks that do not reset, each tick with its
    target velocity and its pulse count. *)
Fixpoint run_control (inputs : list (double * double)) (c : VescWheelController)
  : VescWheelController :=
  match inputs with
  | [] => c
  | (target_velocity, current_pulse) :: rest =>
      run_control rest (fst (control target_velocity current_pulse false c))
  end.

(** The calls of ticks that do not reset. *)
Definition ticks (counts : list double) : list (double * bool) :=
  map (fun count_in => (count_in, false)) counts.

(** ** The other methods, and the events of a run *)

(** [setGearRatio] and [setTorqueConst]. *)
Definition setGearRatio (gear_ratio : double) (c : VescWheelController) :=
  mkController (kp_ c) (ki_ c) (kd_ c) (i_clamp_ c) (duty_limiter_ c) (antiwindup_ c)
    (control_rate_ c) (num_motor_pole_pairs_ c) gear_ratio (torque_const_ c)
    (reset_ c) (position_sens_ c) (velocity_reference_ c) (position_pulse_ c)
    (prev_position_pulse_ c) (velocity_sens_ c) (effort_sens_ c) (target_pulse_ c)
    (error_ c) (error_dt_ c) (error_integ_ c) (error_integ_prev_ c) (estimator c).

Definition setTorqueConst (torque_const : double) (c : VescWheelController) :=
  mkController (kp_ c) (ki_ c) (kd_ c) (i_clamp_ c) (duty_limiter_ c) (antiwindup_ c)
    (control_rate_ c) (num_motor_pole_pairs_ c) (gear_ratio_ c) torque_const
    (reset_ c) (position_sens_ c) (velocity_reference_ c) (position_pulse_ c)
    (prev_position_pulse_ c) (velocity_sens_ c) (effort_sens_ c) (target_pulse_ c)
    (error_ c) (error_dt_ c) (error_integ_ c) (error_integ_prev_ c) (estimator c).

(** [getPositionSens], [getVelocitySens] and [getEffortSens]. *)
Definition getPositionSens (c : VescWheelController) : double := position_sens_ c.
Definition getVelocitySens (c : VescWheelController) : double := velocity_sens_ c.
Definition getEffortSens (c : VescWheelController) : double := effort_sens_ c.

(** What the node does with the object once it is initialised: the control
    timer fires, the driver hands over a packet, or one of the setters is
    called. *)
Inductive Event :=
  | timer_fires
  | packet_arrives (packet : VescPacket)
  | velocity_commanded (velocity_reference : double)
  | gear_ratio_given (gear_ratio : double)
  | torque_const_given (torque_const : double)
  | pole_pairs_given (motor_pole_pairs : Z).

Definition handle (event : Event) (c : VescWheelController)
  : VescWheelController * list InterfaceCall :=
  match event with
  | timer_fires => controlTimerCallback c
  | packet_arrives packet => (updateSensor packet c, [])
  | velocity_commanded velocity_reference =>
      (setTargetVelocity velocity_reference c, [])
  | gear_ratio_given gear_ratio => (setGearRatio gear_ratio c, [])
  | torque_const_given torque_const => (setTorqueConst torque_const c, [])
  | pole_pairs_given motor_pole_pairs => (setMotorPolePairs motor_pole_pairs c, [])
  end.

Fixpoint run_events (events : list Event) (c : VescWheelController)
  : VescWheelController * list InterfaceCall :=
  match events with
  | [] => (c, [])
  | event :: rest =>
      let '(c, calls) := handle event c in
      let '(c, more) := run_events rest c in
      (c, calls ++ more)
  end.

(** * The vocabulary of the properties *)

(** ** Objects of the examples *)

(** An object whose memory is all zero, and the end-to-end scenario of the
    specification: default gains, rate 50, seven pole pairs. *)
Definition zero_estimator : Estimator :=
  mkEstimator 0 (fun _ _ => 0) (fun _ => 0%float) [].

Definition zero_object : VescWheelController :=
  let z := 0%float in
  mkController z z z z z false z z z z false z z z z z z z z z z z zero_estimator.

Definition scenario_params : Params :=
  mkParams (Some 0.005%float) (Some 0.005%float) (Some 0.0025%float)
    (Some 0.2%float) (Some 1.0%float) (Some true) (Some 50.0%float).

Definition scenario (c : VescWheelController) : VescWheelController :=
  setMotorPolePairs 7 (init scenario_params c).

(** ** The estimator *)

(** What the ten slots hold after a reset on a count whose narrow value is [u]. *)
Definition slot_reset (u : Z) (e : Estimator) (i : nat) : Prop :=
  counter_changed_log_ e i 0%nat = u /\
  counter_changed_log_ e i 1%nat = 100 /\
  counter_td_tmp_ e i = 0%float.

(** The since-last-change counter after a tick without a change: one more,
    up to the cap of 100. *)
Definition next_single (single : Z) : Z :=
  if single <? 100 then single + 1 else single.

(** The dwell of each of the ten slots is at least 1. *)
Definition dwell_positive (e : Estimator) : Prop :=
  Forall (fun i => 1 <= counter_changed_log_ e i 1%nat) (seq 0 10).

(** The invariant: the since-last-change counter is between 1 and 100, and
    the dwells are positive. *)
Definition estimator_inv (e : Estimator) : Prop :=
  1 <= counter_changed_single_ e <= 100 /\ dwell_positive e.

(** The quotients [k / n] and [- k / n] pass the sanity clamp of
    [counterTD]: their magnitude is not above 100. *)
Definition quotient_pass (dn : double) (k : Uint63.int) : bool :=
  let dk := of_uint63 k in
  negb (100 <? abs (dk / dn))%float && negb (100 <? abs (- dk / dn))%float.

(** [f] holds from [k] on, [fuel] times. *)
Fixpoint all_from (fuel : nat) (f : Uint63.int -> bool) (k : Uint63.int) : bool :=
  match fuel with
  | O => true
  | S fuel' => f k && all_from fuel' f (Uint63.add k (Uint63.of_Z 1))
  end.

(** The quotients [k / n] and [- k / n] are stopped by the sanity clamp. *)
Definition quotient_stop (dn : double) (k : Uint63.int) : bool :=
  let dk := of_uint63 k in
  (100 <? abs (dk / dn))%float && (100 <? abs (- dk / dn))%float.

(** One row of the table of the quotients, for the dwell [n]: the
    differences from 0 to [100 * n] pass, and the differences from
    [100 * n + 1] to 65535 are stopped. *)
Definition row_pass (n : nat) : bool :=
  all_from (100 * n + 1)
    (quotient_pass (of_uint63 (Uint63.of_Z (Z.of_nat n)))) (Uint63.of_Z 0).

Definition row_stop (n : nat) : bool :=
  all_from (Z.to_nat (65535 - 100 * Z.of_nat n))
    (quotient_stop (of_uint63 (Uint63.of_Z (Z.of_nat n))))
    (Uint63.of_Z (100 * Z.of_nat n + 1)).

(** The integer a double stands for, when it has no fractional part. *)
Definition integral_value (d : double) : option Z :=
  match Prim2SF d with
  | S754_zero _ => Some 0
  | S754_finite s m e =>
      if 0 <=? e then Some (if s then - (Z.pos m * 2 ^ e) else Z.pos m * 2 ^ e)
      else if Z.pos m mod 2 ^ (- e) =? 0
           then Some (if s then - (Z.pos m / 2 ^ (- e)) else Z.pos m / 2 ^ (- e))
           else None
  | _ => None
  end.

(** Two raw counts are whole numbers that agree modulo 2^16. *)
Definition congruent_mod_2_16 (x y : double) : Prop :=
  exists a b : Z,
    integral_value x = Some a /\ integral_value y = Some b /\
    a mod 65536 = b mod 65536.

(** A raw count is a whole number that an [int] holds. *)
Definition int_count (x : double) : Prop :=
  exists a : Z, integral_value x = Some a /\ INT_MIN <= a <= INT_MAX.

(** Two raw counts that an [int] holds and that agree modulo 2^16. *)
Definition congruent16 (x y : double) : Prop :=
  int_count x /\ int_count y /\ congruent_mod_2_16 x y.

(** A count that wraps from 65535 to 0, the same count unwrapped, and the
    wrapped count moved up by 2^32. *)
Definition wrapped_counts : list double := [65534; 65535; 0; 1]%float.
Definition unwrapped_counts : list double := [65534; 65535; 65536; 65537]%float.
Definition far_counts : list double :=
  [4295032830; 4295032831; 4294967296; 4294967297]%float.

(** The cells of the estimator a call reads before it writes them: the
    since-last-change counter, the counts of the slots 0 and 1 and the dwell
    of slot 0. *)
Definition live_cells (e : Estimator) : Z * Z * Z * Z :=
  (counter_changed_single_ e,
   counter_changed_log_ e 0%nat 0%nat,
   counter_changed_log_ e 1%nat 0%nat,
   counter_changed_log_ e 0%nat 1%nat).

(** The cells a call reads hold what a call that resets and the calls after
    it leave there: a counter and a dwell from 1 to 100, and two sixteen-bit
    counts. *)
Definition estimator_live (e : Estimator) : Prop :=
  1 <= counter_changed_single_ e <= 100 /\
  1 <= counter_changed_log_ e 0%nat 1%nat <= 100 /\
  0 <= counter_changed_log_ e 0%nat 0%nat <= 65535 /\
  0 <= counter_changed_log_ e 1%nat 0%nat <= 65535.

(** The quotients [k / n] and [- k / n] are numbers of magnitude at most
    100. *)
Definition quotient_within (dn : double) (k : Uint63.int) : bool :=
  let dk := of_uint63 k in
  (abs (dk / dn) <=? 100)%float && (abs (- dk / dn) <=? 100)%float.

Definition row_within (n : nat) : bool :=
  all_from (100 * n + 1)
    (quotient_within (of_uint63 (Uint63.of_Z (Z.of_nat n)))) (Uint63.of_Z 0).

(** ** The controller *)

(** [x] is not a NaN. *)
Definition not_nan (x : double) : bool := (x =? x)%float.

(** A duty is within the limit [L], or it is a NaN. *)
Definition nan_or_within (L d : double) : bool :=
  negb (not_nan d) || (abs d <=? L)%float.

(** The duties a list of interface calls carries. *)
Fixpoint duties (calls : list InterfaceCall) : list double :=
  match calls with
  | [] => []
  | setDutyCycle d :: rest => d :: duties rest
  | requestState :: rest => duties rest
  end.


(** The pulse difference of the tick is a jump: its magnitude is above a
    quarter of the pole-pair count. *)
Definition pulse_jump (c : VescWheelController) : bool :=
  (num_motor_pole_pairs_ c / double_of_int 4
   <? abs (position_pulse_ c - prev_position_pulse_ c))%float.












(** The width of the range of [long], as a double: 2^64. *)
Definition wrap_width : double := double_of_int (LONG_MAX - LONG_MIN).

(** The scenario after a first call that resets on the count 0, and a target
    velocity that takes the target of the next call, 1.38e19, past 2^63. *)
Definition resting_object : VescWheelController :=
  fst (control 0 0 true (scenario zero_object)).

Definition runaway_velocity : double := 6.2e20.

(** ** Settings, views and runs *)

(** The quotients [k / n] and [- k / n] are not 0. *)
Definition quotient_nonzero (dn : double) (k : Uint63.int) : bool :=
  let dk := of_uint63 k in
  negb (dk / dn =? 0)%float && negb (- dk / dn =? 0)%float.

(** The row of the dwell 100, for the differences from 1 to 65535. *)
Definition row_nonzero : bool :=
  all_from (Z.to_nat 65535) (quotient_nonzero (of_uint63 (Uint63.of_Z 100)))
    (Uint63.of_Z 1).

(** The fields [init] and the setters write, and [control] only reads. *)
Definition settings (c : VescWheelController) :=
  (kp_ c, ki_ c, kd_ c, i_clamp_ c, duty_limiter_ c, antiwindup_ c,
   control_rate_ c, num_motor_pole_pairs_ c, gear_ratio_ c, torque_const_ c).

(** The fields the node writes between two ticks. *)
Definition node_inputs (c : VescWheelController) :=
  (velocity_reference_ c, position_pulse_ c, prev_position_pulse_ c, effort_sens_ c).

(** What [control] leaves as it finds it. *)
Definition kept_by_control (c : VescWheelController) :=
  (settings c, node_inputs c, reset_ c, position_sens_ c).



(** The settings [control] reads. *)
Definition control_settings (c : VescWheelController) :=
  (kp_ c, ki_ c, kd_ c, i_clamp_ c, duty_limiter_ c, antiwindup_ c,
   control_rate_ c, num_motor_pole_pairs_ c).

(** What a call of [control] that does not reset reads of the object before
    it writes it: the settings, the target, the integral and the four cells
    of the estimator. *)
Definition control_memory (c : VescWheelController) :=
  (control_settings c, target_pulse_ c, error_integ_ c, live_cells (estimator c)).

(** The error terms of line 101. *)
Definition pid_terms (c : VescWheelController) :=
  (error_ c, error_dt_ c, error_integ_ c, error_integ_prev_ c).

(** What the node can read of the object or feed back into a tick: the
    commanded velocity, the pulse counts, the reset flag and the two
    estimates. *)
Definition tick_view (c : VescWheelController) :=
  (velocity_reference_ c, position_pulse_ c, prev_position_pulse_ c, reset_ c,
   position_sens_ c, velocity_sens_ c).

(** Two objects that cannot be told apart by the calls they make: the same
    settings and the same view, and the same memory unless the next tick
    resets. *)
Definition alike (c c' : VescWheelController) : Prop :=
  control_settings c = control_settings c' /\
  tick_view c = tick_view c' /\
  (reset_ c = true \/ control_memory c = control_memory c').

Ltac fields :=
  cbn [kp_ ki_ kd_ i_clamp_ duty_limiter_ antiwindup_ control_rate_
       num_motor_pole_pairs_ gear_ratio_ torque_const_ reset_ position_sens_
       velocity_reference_ position_pulse_ prev_position_pulse_ velocity_sens_
       effort_sens_ target_pulse_ error_ error_dt_ error_integ_ error_integ_prev_
       estimator set_reset set_position_sens set_velocity_sens set_target_pulse
       set_error set_error_dt set_error_integ set_error_integ_prev set_estimator
       fst snd].

(** A tick whose target, integral, count or commanded velocity is a NaN. *)
Definition poisoned (target_velocity current_pulse : double)
    (c : VescWheelController) : bool :=
  negb (not_nan (error_integ_ c) && not_nan (target_pulse_ c)
        && not_nan current_pulse && not_nan target_velocity).

(** The position a tick adds for a pulse difference: the difference over the
    pole-pair count, times 2.0, times pi. *)
Definition position_step (diff pole_pairs : double) : double :=
  (diff / pole_pairs * 2.0 * M_PI)%float.

(** The object with another bound for the integral term. *)
Definition set_i_clamp (v : double) (c : VescWheelController) :=
  mkController (kp_ c) (ki_ c) (kd_ c) v (duty_limiter_ c) (antiwindup_ c)
    (control_rate_ c) (num_motor_pole_pairs_ c) (gear_ratio_ c) (torque_const_ c)
    (reset_ c) (position_sens_ c) (velocity_reference_ c) (position_pulse_ c)
    (prev_position_pulse_ c) (velocity_sens_ c) (effort_sens_ c) (target_pulse_ c)
    (error_ c) (error_dt_ c) (error_integ_ c) (error_integ_prev_ c) (estimator c).

(** * Properties *)

(** ** Doubles: order, NaN, constants and exact sums *)

Section Doubles.

Lemma compare_cont_refl (m : positive) : Pos.compare_cont Eq m m = Eq.
Proof. exact (Pos.compare_refl m). Qed.

Lemma compare_cont_antisym (p q : positive) :
  Pos.compare_cont Eq q p = CompOpp (Pos.compare_cont Eq p q).
Proof. exact (Pos.compare_antisym p q). Qed.

Lemma compare_cont_lt (p q : positive) :
  Pos.compare_cont Eq p q = Lt -> Z.pos p < Z.pos q.
Proof. intros H. now apply Pos.compare_lt_iff in H. Qed.

Lemma compare_cont_not_gt (p q : positive) :
  Pos.compare_cont Eq p q <> Gt -> Z.pos p <= Z.pos q.
Proof. intros H. now apply Pos.compare_le_iff in H. Qed.

Lemma SFcompare_refl (x : spec_float) :
  x <> S754_nan -> SFcompare x x = Some Eq.
Proof.
  destruct x as [s|s| |s m e]; cbn; try congruence; intros _.
  - now destruct s.
  - rewrite Z.compare_refl, compare_cont_refl. now destruct s.
Qed.

Lemma SFcompare_antisym (x y : spec_float) :
  SFcompare y x = option_map CompOpp (SFcompare x y).
Proof.
  destruct x as [[|]|[|]| |[|] mx ex], y as [[|]|[|]| |[|] my ey];
    cbn; try reflexivity.
  all: rewrite (Z.compare_antisym ex ey), (compare_cont_antisym mx my).
  all: destruct (Z.compare ex ey); cbn; try reflexivity.
  all: now destruct (Pos.compare_cont Eq mx my).
Qed.


Lemma SFleb_abs_opp (l : spec_float) :
  SFleb (S754_zero false) l = true -> SFleb (SFabs (SFopp l)) l = true.
Proof.
  unfold SFleb.
  destruct l as [[|]|[|]| |[|] ml el]; cbn; try congruence.
  now rewrite Z.compare_refl, compare_cont_refl.
Qed.

Lemma SFleb_abs_self (l : spec_float) :
  SFleb (S754_zero false) l = true -> SFleb (SFabs l) l = true.
Proof.
  unfold SFleb.
  destruct l as [[|]|[|]| |[|] ml el]; cbn; try congruence.
  now rewrite Z.compare_refl, compare_cont_refl.
Qed.

Lemma SFleb_abs_between (x l : spec_float) :
  SFleb (S754_zero false) l = true ->
  SFeqb x x = true ->
  SFltb x (SFopp l) = false ->
  SFltb l x = false ->
  SFleb (SFabs x) l = true.
Proof.
  unfold SFleb, SFltb, SFeqb.
  destruct x as [[|]|[|]| |[|] mx ex], l as [[|]|[|]| |[|] ml el];
    cbn; try congruence.
  all: rewrite ?(Z.compare_antisym ex el), ?(compare_cont_antisym mx ml).
  all: destruct (Z.compare ex el); cbn; try congruence.
  all: destruct (Pos.compare_cont Eq mx ml); cbn; congruence.
Qed.

Lemma not_nan_spec (x : double) :
  not_nan x = true <-> Prim2SF x <> S754_nan.
Proof.
  unfold not_nan. rewrite eqb_spec. unfold SFeqb. split.
  - intros H Hn. rewrite Hn in H. discriminate.
  - intros H. now rewrite SFcompare_refl.
Qed.

Lemma ltb_not_nan (a b : double) :
  (a <? b)%float = true -> not_nan a = true /\ not_nan b = true.
Proof.
  rewrite ltb_spec, !not_nan_spec. unfold SFltb.
  destruct (Prim2SF a), (Prim2SF b); cbn; try discriminate;
    intros _; split; discriminate.
Qed.

Lemma add_not_nan (a b : double) :
  not_nan (a + b) = true -> not_nan a = true /\ not_nan b = true.
Proof.
  rewrite !not_nan_spec, add_spec.
  destruct (Prim2SF a), (Prim2SF b); cbn; try congruence;
    intros _; split; discriminate.
Qed.

Lemma mul_not_nan (a b : double) :
  not_nan (a * b) = true -> not_nan a = true /\ not_nan b = true.
Proof.
  rewrite !not_nan_spec, mul_spec.
  destruct (Prim2SF a), (Prim2SF b); cbn; try congruence;
    intros _; split; discriminate.
Qed.




Lemma ltb_false_of_leb (a b : double) :
  (a <=? b)%float = true -> (b <? a)%float = false.
Proof.
  rewrite ltb_spec, leb_spec. unfold SFltb, SFleb.
  rewrite (SFcompare_antisym (Prim2SF a) (Prim2SF b)).
  now destruct (SFcompare (Prim2SF a) (Prim2SF b)) as [[| |]|].
Qed.


Lemma Prim2SF_zero : Prim2SF (double_of_int 0) = S754_zero false.
Proof. reflexivity. Qed.

Lemma Prim2SF_four : Prim2SF (double_of_int 4) = S754_finite false 4503599627370496 (-50).
Proof. reflexivity. Qed.



Lemma Prim2SF_LONG_MAX :
  Prim2SF (double_of_int LONG_MAX) = S754_finite false 4503599627370496 11.
Proof. reflexivity. Qed.

Lemma Prim2SF_LONG_MIN :
  Prim2SF (double_of_int LONG_MIN) = S754_finite true 4503599627370496 11.
Proof. reflexivity. Qed.

Lemma Prim2SF_wrap_width :
  Prim2SF wrap_width = S754_finite false 4503599627370496 12.
Proof. reflexivity. Qed.




Lemma digits2_pos_iter (m k : positive) :
  digits2_pos (Pos.iter xO m k) = (digits2_pos m + k)%positive.
Proof.
  induction k as [|k IH] using Pos.peano_ind.
  - cbn. lia.
  - rewrite Pos.iter_succ. cbn [digits2_pos]. rewrite IH. lia.
Qed.

Lemma digits2_pos_bounds (m : positive) :
  2 ^ (Z.pos (digits2_pos m) - 1) <= Z.pos m < 2 ^ Z.pos (digits2_pos m).
Proof.
  induction m as [m IH|m IH|]; cbn [digits2_pos].
  - rewrite Pos2Z.inj_succ.
    replace (Z.succ (Z.pos (digits2_pos m)) - 1) with (Z.succ (Z.pos (digits2_pos m) - 1)) by lia.
    rewrite !Z.pow_succ_r by lia. lia.
  - rewrite Pos2Z.inj_succ.
    replace (Z.succ (Z.pos (digits2_pos m)) - 1) with (Z.succ (Z.pos (digits2_pos m) - 1)) by lia.
    rewrite !Z.pow_succ_r by lia. lia.
  - cbn. lia.
Qed.

(** A mantissa of at most 52 bits with the exponent 11 is normalised without
    rounding. *)
Lemma binary_round_exact (s : bool) (m : positive) :
  let d := Z.pos (digits2_pos m) in
  d <= 52 ->
  binary_round prec emax s m 11
  = S754_finite s (Pos.iter xO m (Z.to_pos (53 - d))) (d - 42).
Proof.
  intros d Hd. unfold binary_round, shl_align, fexp, SpecFloat.emin, prec, emax.
  fold d.
  replace (Z.max (d + 11 - 53) (3 - 1024 - 53)) with (d - 42) by lia.
  replace (d - 42 - 11) with (Z.neg (Z.to_pos (53 - d))) by lia.
  unfold binary_round_aux, shr_fexp, fexp, SpecFloat.emin, Zdigits2.
  rewrite digits2_pos_iter.
  replace (Z.pos (digits2_pos m + Z.to_pos (53 - d))) with 53 by (unfold d; lia).
  replace (Z.max (53 + (d - 42) - 53) (3 - 1024 - 53) - (d - 42)) with 0 by lia.
  cbn [shr shr_record_of_loc shr_m loc_of_shr_record round_nearest_even].
  rewrite digits2_pos_iter.
  replace (Z.pos (digits2_pos m + Z.to_pos (53 - d))) with 53 by (unfold d; lia).
  replace (Z.max (53 + (d - 42) - 53) (3 - 1024 - 53) - (d - 42)) with 0 by lia.
  cbn [shr shr_record_of_loc shr_m].
  destruct (Z.leb_spec (d - 42) (1024 - 53)); [reflexivity|lia].
Qed.

Lemma SFadd_wrap (s : bool) (m : positive) :
  2 ^ 52 < Z.pos m < 2 ^ 53 ->
  exists mz ez,
    SF64add (S754_finite s m 11) (S754_finite (negb s) 4503599627370496 11)
    = S754_finite s mz ez /\ ez <= 10.
Proof.
  intros Hm.
  set (m' := Z.to_pos (Z.pos m - 2 ^ 52)).
  assert (Hm' : Z.pos m' = Z.pos m - 2 ^ 52) by (unfold m'; lia).
  assert (Hd : Z.pos (digits2_pos m') <= 52).
  { pose proof (digits2_pos_bounds m') as [Hlo _].
    assert (Hlt : 2 ^ (Z.pos (digits2_pos m') - 1) < 2 ^ 52) by lia.
    apply Z.pow_lt_mono_r_iff in Hlt; lia. }
  exists (Pos.iter xO m' (Z.to_pos (53 - Z.pos (digits2_pos m')))),
    (Z.pos (digits2_pos m') - 42).
  split; [|lia].
  rewrite <- (binary_round_exact s m' Hd).
  unfold SF64add, SFadd, shl_align.
  change (Z.min 11 11) with 11. change (11 - 11) with 0. cbn [fst].
  destruct s; cbn [cond_Zopp negb].
  - replace (- Z.pos m + Z.pos 4503599627370496) with (Z.neg m') by lia.
    reflexivity.
  - replace (Z.pos m + - Z.pos 4503599627370496) with (Z.pos m') by lia.
    reflexivity.
Qed.

(** The mantissa of a valid double with the exponent 11 or 12 has 53 bits. *)
Lemma valid_mantissa (s : bool) (m : positive) (e : Z) :
  valid_binary (S754_finite s m e) = true ->
  11 <= e <= 12 ->
  2 ^ 52 <= Z.pos m < 2 ^ 53.
Proof.
  unfold valid_binary, bounded, canonical_mantissa, fexp, SpecFloat.emin, prec, emax.
  intros Hv He. apply andb_true_iff in Hv. destruct Hv as [Hc _].
  apply Z.eqb_eq in Hc.
  assert (Hd : Z.pos (digits2_pos m) = 53) by lia.
  pose proof (digits2_pos_bounds m) as Hb. rewrite Hd in Hb. exact Hb.
Qed.

(** The conversion of an integer to a double, on the primitive integers and
    on the opposite. *)
Lemma double_of_int_nonneg (z : Z) :
  0 <= z < 2 ^ 63 -> double_of_int z = of_uint63 (Uint63.of_Z z).
Proof.
  intros Hz. unfold double_of_int.
  rewrite <- (SF2Prim_Prim2SF (of_uint63 (Uint63.of_Z z))), of_uint63_spec.
  rewrite Uint63.of_Z_spec. change Uint63.wB with (2 ^ 63).
  now rewrite Z.mod_small.
Qed.

Lemma binary_round_sign (m : positive) (e : Z) :
  binary_round prec emax true m e = SFopp (binary_round prec emax false m e).
Proof.
  unfold binary_round, binary_round_aux.
  destruct (shl_align m e _) as [mz ez].
  destruct (shr_fexp prec emax (Z.pos mz) ez loc_Exact) as [mrs e'].
  destruct (shr_fexp prec emax _ e' loc_Exact) as [mrs' e''].
  destruct (shr_m mrs'); try reflexivity.
  now destruct (e'' <=? emax - prec).
Qed.

Lemma opp_involutive (x : double) : (- - x)%float = x.
Proof.
  apply Prim2SF_inj. rewrite !opp_spec.
  destruct (Prim2SF x) as [s|s| |s m e]; cbn; now rewrite ?negb_involutive.
Qed.

Lemma SF2Prim_opp (x : spec_float) : SF2Prim (SFopp x) = (- SF2Prim x)%float.
Proof.
  destruct x as [[|]|[|]| |[|] m e]; try reflexivity.
  cbn [SFopp negb SF2Prim]. now rewrite opp_involutive.
Qed.

Lemma double_of_int_opp (z : Z) :
  0 < z -> double_of_int (- z) = (- double_of_int z)%float.
Proof.
  destruct z as [|p|p]; try lia. intros _.
  unfold double_of_int. cbn [Z.opp binary_normalize].
  now rewrite binary_round_sign, SF2Prim_opp.
Qed.

Lemma of_Z_succ (k : Z) :
  Uint63.add (Uint63.of_Z k) (Uint63.of_Z 1) = Uint63.of_Z (k + 1).
Proof.
  apply Uint63.to_Z_inj.
  rewrite Uint63.add_spec, !Uint63.of_Z_spec.
  now rewrite <- Z.add_mod by (change Uint63.wB with (2 ^ 63); lia).
Qed.

Lemma all_from_spec (fuel : nat) (f : Uint63.int -> bool) (k0 : Z) (j : nat) :
  all_from fuel f (Uint63.of_Z k0) = true ->
  (j < fuel)%nat ->
  f (Uint63.of_Z (k0 + Z.of_nat j)) = true.
Proof.
  revert k0 j. induction fuel as [|fuel IH]; intros k0 j Hall Hj; [lia|].
  cbn [all_from] in Hall. apply andb_true_iff in Hall.
  destruct Hall as [H0 Hrest]. rewrite of_Z_succ in Hrest.
  destruct j as [|j].
  - now rewrite Z.add_0_r.
  - replace (k0 + Z.of_nat (S j)) with (k0 + 1 + Z.of_nat j) by lia.
    apply IH; [exact Hrest|lia].
Qed.

(** The table of the quotients, by computation. *)
Lemma table_pass : forallb row_pass (seq 1 100) = true.
Proof. vm_compute. reflexivity. Qed.

Lemma table_stop : forallb row_stop (seq 1 100) = true.
Proof. vm_compute. reflexivity. Qed.

Lemma quotient_stop_all (n : nat) (k : Z) :
  (1 <= n <= 100)%nat -> 100 * Z.of_nat n < k <= 65535 ->
  quotient_stop (of_uint63 (Uint63.of_Z (Z.of_nat n))) (Uint63.of_Z k) = true.
Proof.
  intros Hn Hk.
  pose proof (proj1 (forallb_forall row_stop (seq 1 100)) table_stop n) as Hrow.
  unfold row_stop in Hrow.
  replace k
    with (100 * Z.of_nat n + 1 + Z.of_nat (Z.to_nat (k - 100 * Z.of_nat n - 1)))
    by lia.
  apply (all_from_spec (Z.to_nat (65535 - 100 * Z.of_nat n))); [|lia].
  apply Hrow. apply in_seq. lia.
Qed.

Lemma quotient_pass_all (n : nat) (k : Z) :
  (1 <= n <= 100)%nat -> 0 <= k <= 100 * Z.of_nat n ->
  quotient_pass (of_uint63 (Uint63.of_Z (Z.of_nat n))) (Uint63.of_Z k) = true.
Proof.
  intros Hn Hk.
  pose proof (proj1 (forallb_forall row_pass (seq 1 100)) table_pass n) as Hrow.
  unfold row_pass in Hrow.
  replace k with (0 + Z.of_nat (Z.to_nat k)) by lia.
  apply (all_from_spec (100 * n + 1)); [|lia].
  apply Hrow. apply in_seq. lia.
Qed.

(** The quotient of a count difference by a dwell passes the sanity clamp
    when the difference is at most a hundred times the dwell. *)
Lemma quotient_in_range (n : nat) (delta : Z) :
  (1 <= n <= 100)%nat -> Z.abs delta <= 100 * Z.of_nat n ->
  (100 <? abs (double_of_int delta / double_of_int (Z.of_nat n)))%float = false.
Proof.
  intros Hn Hd.
  rewrite (double_of_int_nonneg (Z.of_nat n)) by lia.
  destruct (Z.lt_ge_cases delta 0) as [Hneg|Hpos].
  - assert (Hq : double_of_int delta
                 = (- of_uint63 (Uint63.of_Z (- delta)))%float).
    { rewrite <- (Z.opp_involutive delta) at 1.
      rewrite (double_of_int_opp (- delta)) by lia.
      now rewrite (double_of_int_nonneg (- delta)) by lia. }
    rewrite Hq.
    pose proof (quotient_pass_all n (- delta) Hn ltac:(lia)) as Hok.
    unfold quotient_pass in Hok. cbv zeta in Hok.
    apply andb_true_iff in Hok. destruct Hok as [_ Hok].
    now apply negb_true_iff in Hok.
  - rewrite (double_of_int_nonneg delta) by lia.
    pose proof (quotient_pass_all n delta Hn ltac:(lia)) as Hok.
    unfold quotient_pass in Hok. cbv zeta in Hok.
    apply andb_true_iff in Hok. destruct Hok as [Hok _].
    now apply negb_true_iff in Hok.
Qed.

(** ... and is stopped by it when the difference is larger, up to the
    largest difference of two sixteen-bit counts. *)
Lemma quotient_out_of_range (n : nat) (delta : Z) :
  (1 <= n <= 100)%nat -> 100 * Z.of_nat n < Z.abs delta <= 65535 ->
  (100 <? abs (double_of_int delta / double_of_int (Z.of_nat n)))%float = true.
Proof.
  intros Hn Hd.
  rewrite (double_of_int_nonneg (Z.of_nat n)) by lia.
  destruct (Z.lt_ge_cases delta 0) as [Hneg|Hpos].
  - assert (Hq : double_of_int delta
                 = (- of_uint63 (Uint63.of_Z (- delta)))%float).
    { rewrite <- (Z.opp_involutive delta) at 1.
      rewrite (double_of_int_opp (- delta)) by lia.
      now rewrite (double_of_int_nonneg (- delta)) by lia. }
    rewrite Hq.
    pose proof (quotient_stop_all n (- delta) Hn ltac:(lia)) as Hok.
    unfold quotient_stop in Hok. cbv zeta in Hok.
    apply andb_true_iff in Hok. now destruct Hok as [_ Hok].
  - rewrite (double_of_int_nonneg delta) by lia.
    pose proof (quotient_stop_all n delta Hn ltac:(lia)) as Hok.
    unfold quotient_stop in Hok. cbv zeta in Hok.
    apply andb_true_iff in Hok. now destruct Hok as [Hok _].
Qed.

Lemma table_within : forallb row_within (seq 1 100) = true.
Proof. vm_compute. reflexivity. Qed.

Lemma quotient_within_all (n : nat) (k : Z) :
  (1 <= n <= 100)%nat -> 0 <= k <= 100 * Z.of_nat n ->
  quotient_within (of_uint63 (Uint63.of_Z (Z.of_nat n))) (Uint63.of_Z k) = true.
Proof.
  intros Hn Hk.
  pose proof (proj1 (forallb_forall row_within (seq 1 100)) table_within n) as Hrow.
  unfold row_within in Hrow.
  replace k with (0 + Z.of_nat (Z.to_nat k)) by lia.
  apply (all_from_spec (100 * n + 1)); [|lia].
  apply Hrow. apply in_seq. lia.
Qed.

Lemma double_of_int_neg (delta : Z) :
  delta < 0 -> - delta < 2 ^ 63 ->
  double_of_int delta = (- of_uint63 (Uint63.of_Z (- delta)))%float.
Proof.
  intros Hneg Hb.
  rewrite <- (Z.opp_involutive delta) at 1.
  rewrite (double_of_int_opp (- delta)) by lia.
  now rewrite (double_of_int_nonneg (- delta)) by lia.
Qed.

(** A quotient that passes the sanity clamp is a number of magnitude at most
    100. *)
Lemma quotient_bounded (n : nat) (delta : Z) :
  (1 <= n <= 100)%nat -> Z.abs delta <= 100 * Z.of_nat n ->
  (abs (double_of_int delta / double_of_int (Z.of_nat n)) <=? 100)%float = true.
Proof.
  intros Hn Hd.
  rewrite (double_of_int_nonneg (Z.of_nat n)) by lia.
  destruct (Z.lt_ge_cases delta 0) as [Hneg|Hpos].
  - rewrite (double_of_int_neg delta) by lia.
    pose proof (quotient_within_all n (- delta) Hn ltac:(lia)) as Hok.
    unfold quotient_within in Hok. cbv zeta in Hok.
    apply andb_true_iff in Hok. now destruct Hok as [_ Hok].
  - rewrite (double_of_int_nonneg delta) by lia.
    pose proof (quotient_within_all n delta Hn ltac:(lia)) as Hok.
    unfold quotient_within in Hok. cbv zeta in Hok.
    apply andb_true_iff in Hok. now destruct Hok as [Hok _].
Qed.

(** The sanity clamp on the quotient of a difference of two sixteen-bit
    counts by a dwell from 1 to 100. *)
Lemma sanity_quotient (d delta : Z) :
  1 <= d <= 100 -> Z.abs delta <= 65535 ->
  let q := (double_of_int delta / double_of_int d)%float in
  (Z.abs delta <= 100 * d -> sanity q = q) /\
  (100 * d < Z.abs delta -> sanity q = 0%float) /\
  (abs (sanity q) <=? 100)%float = true.
Proof.
  intros Hd Hdelta q.
  assert (Hn : (1 <= Z.to_nat d <= 100)%nat) by lia.
  assert (Hdn : d = Z.of_nat (Z.to_nat d)) by lia.
  destruct (Z.le_gt_cases (Z.abs delta) (100 * d)) as [Hin|Hout].
  - assert (Hpass : sanity q = q).
    { unfold sanity, q. rewrite Hdn.
      rewrite quotient_in_range; [reflexivity|exact Hn|lia]. }
    split; [intros _; exact Hpass|]. split; [lia|].
    rewrite Hpass. unfold q. rewrite Hdn. apply quotient_bounded; [exact Hn|lia].
  - assert (Hstop : sanity q = 0%float).
    { unfold sanity, q. rewrite Hdn.
      rewrite quotient_out_of_range; [reflexivity|exact Hn|lia]. }
    split; [lia|]. split; [intros _; exact Hstop|].
    rewrite Hstop. reflexivity.
Qed.

End Doubles.

(** ** The stores of [counterTD] *)

Lemma log_set_same (log : array (array Z)) (i j : nat) (v : Z) :
  log_set log i j v i j = v.
Proof. unfold log_set, aset. now rewrite !Nat.eqb_refl. Qed.

Lemma log_set_other_column (log : array (array Z)) (i j i' j' : nat) (v : Z) :
  j' <> j -> log_set log i j v i' j' = log i' j'.
Proof.
  intros Hj. unfold log_set, aset.
  destruct (Nat.eqb i' i) eqn:Hi; [|reflexivity].
  apply Nat.eqb_eq in Hi. subst i'.
  apply Nat.eqb_neq in Hj. now rewrite Hj.
Qed.

Lemma log_set_other_row (log : array (array Z)) (i j i' j' : nat) (v : Z) :
  i' <> i -> log_set log i j v i' j' = log i' j'.
Proof.
  intros Hi. unfold log_set, aset. apply Nat.eqb_neq in Hi. now rewrite Hi.
Qed.

(** The shift of the counts: the rows 1 to 9 take the counts of the rows 0
    to 8 and the rest of the log stays; the store of the first round, of the
    count of row 9 at row 10, is past the last row. *)
Lemma shift_counts_fields (e : Estimator) :
  counter_changed_single_ (shift_counts e) = counter_changed_single_ e /\
  counter_td_tmp_ (shift_counts e) = counter_td_tmp_ e /\
  stray_stores (shift_counts e)
  = stray_stores e ++ [stray_log 10 0 (counter_changed_log_ e 9%nat 0%nat)].
Proof. destruct e as [single log td stray]. repeat split. Qed.

Lemma shift_counts_row0 (e : Estimator) (j : nat) :
  counter_changed_log_ (shift_counts e) 0%nat j = counter_changed_log_ e 0%nat j.
Proof. destruct e as [single log td stray]. reflexivity. Qed.

Lemma shift_counts_spec (e : Estimator) (i : nat) :
  (i <= 8)%nat ->
  counter_changed_log_ (shift_counts e) (S i) 0%nat = counter_changed_log_ e i 0%nat.
Proof.
  destruct e as [single log td stray]. intros Hi.
  do 9 (destruct i as [|i]; [reflexivity|]). lia.
Qed.

Lemma shift_counts_dwell (e : Estimator) (i : nat) :
  counter_changed_log_ (shift_counts e) i 1%nat = counter_changed_log_ e i 1%nat.
Proof.
  destruct e as [single log td stray].
  do 10 (destruct i as [|i]; [reflexivity|]). reflexivity.
Qed.

Lemma shift_counts_above (e : Estimator) (i j : nat) :
  (HISTORY_DEPTH <= i)%nat ->
  counter_changed_log_ (shift_counts e) i j = counter_changed_log_ e i j.
Proof.
  destruct e as [single log td stray]. unfold HISTORY_DEPTH. intros Hi.
  do 10 (destruct i as [|i]; [lia|]). reflexivity.
Qed.

(** The shift of the derivatives stays inside the ten cells. *)
Lemma shift_td_fields (e : Estimator) :
  counter_changed_single_ (shift_td e) = counter_changed_single_ e /\
  counter_changed_log_ (shift_td e) = counter_changed_log_ e /\
  stray_stores (shift_td e) = stray_stores e.
Proof. destruct e as [single log td stray]. repeat split. Qed.

Lemma shift_td_spec (e : Estimator) (i : nat) :
  (i <= 8)%nat -> counter_td_tmp_ (shift_td e) (S i) = counter_td_tmp_ e i.
Proof.
  destruct e as [single log td stray]. intros Hi.
  do 9 (destruct i as [|i]; [reflexivity|]). lia.
Qed.

(** ** One call of [counterTD] *)

Lemma counterTD_reset_state (count_in : double) (e : Estimator) :
  let e' := fst (counterTD count_in true e) in
  counter_changed_single_ e' = 1 /\
  Forall (slot_reset (static_cast_uint16 count_in) e') (seq 0 10).
Proof.
  unfold counterTD, slot_reset.
  generalize (static_cast_uint16 count_in) as u; intro u.
  destruct e as [single log td stray].
  cbn -[Z.eqb]. split; [reflexivity|].
  repeat (constructor; [repeat split; reflexivity|]). constructor.
Qed.

Lemma counterTD_reset_stray (count_in : double) (e : Estimator) :
  stray_stores (fst (counterTD count_in true e)) = stray_stores e.
Proof.
  unfold counterTD. generalize (static_cast_uint16 count_in) as u; intro u.
  destruct e as [single log td stray]. reflexivity.
Qed.

(** A call that does not reset and reads the count of slot 0 again. *)
Lemma counterTD_unchanged (count_in : double) (e : Estimator) :
  counter_changed_log_ e 0%nat 0%nat = static_cast_uint16 count_in ->
  let e' := fst (counterTD count_in false e) in
  let dwell := Z.max (counter_changed_log_ e 0%nat 1%nat) (counter_changed_single_ e) in
  counter_changed_single_ e' = next_single (counter_changed_single_ e) /\
  (forall i, counter_changed_log_ e' i 0%nat = counter_changed_log_ e i 0%nat) /\
  counter_changed_log_ e' 0%nat 1%nat = dwell /\
  (forall i, (1 <= i)%nat ->
     counter_changed_log_ e' i 1%nat = counter_changed_log_ e i 1%nat) /\
  stray_stores e' = stray_stores e /\
  snd (counterTD count_in false e)
  = sanity (double_of_int (counter_changed_log_ e 0%nat 0%nat
                           - counter_changed_log_ e 1%nat 0%nat)
            / double_of_int dwell)%float.
Proof.
  intros H0. unfold counterTD, next_single. rewrite H0, Z.eqb_refl. cbn [negb].
  rewrite <- H0. clear H0.
  destruct e as [single log td stray].
  cbn [counter_changed_single_ counter_changed_log_].
  destruct (Z.ltb_spec (log 0%nat 1%nat) single) as [Hlt|Hge].
  - rewrite (Z.max_r _ _ (Z.lt_le_incl _ _ Hlt)).
    cbn -[Z.sub Z.add Z.ltb double_of_int sanity PrimFloat.div].
    destruct (single <? 100);
      cbn -[Z.sub Z.add double_of_int sanity PrimFloat.div];
      repeat split; try reflexivity;
      try (intros i; destruct i as [|i]; reflexivity);
      (intros i Hi; (destruct i as [|i]; [lia|reflexivity])).
  - rewrite (Z.max_l _ _ Hge).
    cbn -[Z.sub Z.add Z.ltb double_of_int sanity PrimFloat.div].
    destruct (single <? 100);
      cbn -[Z.sub Z.add double_of_int sanity PrimFloat.div];
      repeat split; reflexivity.
Qed.

(** A call that does not reset and reads a count that differs from the count
    of slot 0. *)
Lemma counterTD_changed (count_in : double) (e : Estimator) :
  counter_changed_log_ e 0%nat 0%nat <> static_cast_uint16 count_in ->
  let e' := fst (counterTD count_in false e) in
  let q := (double_of_int (static_cast_uint16 count_in
                           - counter_changed_log_ e 0%nat 0%nat)
            / double_of_int (counter_changed_single_ e))%float in
  counter_changed_single_ e' = 1 /\
  counter_changed_log_ e' 0%nat 0%nat = static_cast_uint16 count_in /\
  counter_changed_log_ e' 0%nat 1%nat = counter_changed_single_ e /\
  (forall i, (i <= 8)%nat ->
     counter_changed_log_ e' (S i) 0%nat = counter_changed_log_ e i 0%nat) /\
  (forall i, (1 <= i)%nat ->
     counter_changed_log_ e' i 1%nat = counter_changed_log_ e i 1%nat) /\
  (forall i, (i <= 8)%nat -> counter_td_tmp_ e' (S i) = counter_td_tmp_ e i) /\
  counter_td_tmp_ e' 0%nat = q /\
  stray_stores e'
  = stray_stores e ++ [stray_log 10 0 (counter_changed_log_ e 9%nat 0%nat)] /\
  snd (counterTD count_in false e) = sanity q.
Proof.
  intros H0. apply Z.eqb_neq in H0. unfold counterTD. rewrite H0. cbn [negb].
  clear H0. generalize (static_cast_uint16 count_in) as u; intro u.
  destruct e as [single log td stray].
  cbn -[Z.sub double_of_int sanity PrimFloat.div].
  repeat split.
  - intros i Hi. do 9 (destruct i as [|i]; [reflexivity|]). lia.
  - intros i Hi. destruct i as [|i]; [lia|].
    do 10 (destruct i as [|i]; [reflexivity|]). reflexivity.
  - intros i Hi. do 9 (destruct i as [|i]; [reflexivity|]). lia.
Qed.

(** A call that does not reset, from the cells it reads: the cells it leaves
    and the value it returns. *)
Lemma counterTD_live (count_in : double) (e : Estimator) :
  let u := static_cast_uint16 count_in in
  let single := counter_changed_single_ e in
  let c0 := counter_changed_log_ e 0%nat 0%nat in
  let c1 := counter_changed_log_ e 1%nat 0%nat in
  let d0 := counter_changed_log_ e 0%nat 1%nat in
  live_cells (fst (counterTD count_in false e))
  = (if c0 =? u then (next_single single, c0, c1, Z.max d0 single)
     else (1, u, c0, single)) /\
  snd (counterTD count_in false e)
  = (if c0 =? u
     then sanity (double_of_int (c0 - c1) / double_of_int (Z.max d0 single))%float
     else sanity (double_of_int (u - c0) / double_of_int single)%float).
Proof.
  intros u single c0 c1 d0. unfold live_cells.
  destruct (Z.eqb_spec c0 u) as [Heq|Hne].
  - destruct (counterTD_unchanged count_in e Heq) as (Hs & Hc & Hd & _ & _ & Hout).
    rewrite Hs, !Hc, Hd, Hout. split; reflexivity.
  - destruct (counterTD_changed count_in e Hne)
      as (Hs & H00 & H01 & Hshift & _ & _ & _ & _ & Hout).
    rewrite Hs, H00, H01, (Hshift 0%nat) by lia. rewrite Hout. split; reflexivity.
Qed.

Lemma live_cells_reset (count_in : double) (e : Estimator) :
  live_cells (fst (counterTD count_in true e))
  = (1, static_cast_uint16 count_in, static_cast_uint16 count_in, 100).
Proof.
  destruct (counterTD_reset_state count_in e) as [Hs Hl].
  pose proof (proj1 (Forall_forall _ _) Hl) as Hall.
  destruct (Hall 0%nat) as (H0 & Hd & _); [simpl; auto|].
  destruct (Hall 1%nat) as (H1 & _ & _); [simpl; auto|].
  unfold live_cells. now rewrite Hs, H0, H1, Hd.
Qed.



(** ** The invariant of the estimator *)

Lemma estimator_inv_reset (count_in : double) (e : Estimator) :
  estimator_inv (fst (counterTD count_in true e)).
Proof.
  destruct (counterTD_reset_state count_in e) as [Hs Hl].
  split; [rewrite Hs; lia|].
  unfold dwell_positive. eapply Forall_impl; [|exact Hl].
  intros i (_ & Hd & _). rewrite Hd. lia.
Qed.

Lemma next_single_range (single : Z) :
  1 <= single <= 100 -> 1 <= next_single single <= 100.
Proof. unfold next_single. destruct (Z.ltb_spec single 100); lia. Qed.

Lemma estimator_inv_step (count_in : double) (e : Estimator) :
  estimator_inv e -> estimator_inv (fst (counterTD count_in false e)).
Proof.
  intros [Hs Hd].
  destruct (Z.eq_dec (counter_changed_log_ e 0%nat 0%nat)
              (static_cast_uint16 count_in)) as [Heq|Hne].
  - destruct (counterTD_unchanged count_in e Heq) as (Hs' & _ & Hd0 & Hdi & _).
    split; [rewrite Hs'; now apply next_single_range|].
    unfold dwell_positive. eapply Forall_impl; [|exact Hd].
    intros i Hi. cbv beta in *.
    destruct (Nat.eq_dec i 0) as [->|Hi0].
    + rewrite Hd0. lia.
    + rewrite Hdi by lia. exact Hi.
  - destruct (counterTD_changed count_in e Hne) as (Hs' & _ & Hd0 & _ & Hdi & _).
    split; [rewrite Hs'; lia|].
    unfold dwell_positive. eapply Forall_impl; [|exact Hd].
    intros i Hi. cbv beta in *.
    destruct (Nat.eq_dec i 0) as [->|Hi0].
    + rewrite Hd0. lia.
    + rewrite Hdi by lia. exact Hi.
Qed.

Lemma estimator_inv_call (count_in : double) (reset : bool) (e : Estimator) :
  estimator_inv e -> estimator_inv (fst (counterTD count_in reset e)).
Proof.
  destruct reset; [intros _; apply estimator_inv_reset|apply estimator_inv_step].
Qed.

Lemma estimator_inv_run (calls : list (double * bool)) (e : Estimator) :
  estimator_inv e -> estimator_inv (fst (run_counterTD calls e)).
Proof.
  revert e. induction calls as [|[count_in reset] rest IH]; intros e He;
    [exact He|].
  cbn [run_counterTD].
  pose proof (estimator_inv_call count_in reset e He) as He'.
  destruct (counterTD count_in reset e) as [e' out]. cbn [fst] in He'.
  specialize (IH e' He'). destruct (run_counterTD rest e') as [e'' outs].
  exact IH.
Qed.

Lemma run_counterTD_length (calls : list (double * bool)) (e : Estimator) :
  length (snd (run_counterTD calls e)) = length calls.
Proof.
  revert e. induction calls as [|[count_in reset] rest IH]; intros e;
    [reflexivity|].
  cbn [run_counterTD]. destruct (counterTD count_in reset e) as [e' out].
  specialize (IH e'). destruct (run_counterTD rest e') as [e'' outs].
  cbn in *. now rewrite IH.
Qed.

Lemma static_cast_uint16_range (d : double) :
  0 <= static_cast_uint16 d <= 65535.
Proof.
  unfold static_cast_uint16. destruct (trunc_double d) as [z|]; [|lia].
  destruct (_ && _); [|lia].
  pose proof (Z.mod_pos_bound z 65536). lia.
Qed.

(** The cells a call reads stay a counter and a dwell from 1 to 100 and two
    sixteen-bit counts, and the value returned is then a number of magnitude
    at most 100. *)
Lemma estimator_live_reset (count_in : double) (e : Estimator) :
  estimator_live (fst (counterTD count_in true e)).
Proof.
  destruct (counterTD_reset_state count_in e) as [Hs Hl].
  pose proof (proj1 (Forall_forall _ _) Hl) as Hall.
  destruct (Hall 0%nat) as (H0 & Hd & _); [simpl; auto|].
  destruct (Hall 1%nat) as (H1 & _ & _); [simpl; auto|].
  unfold estimator_live. rewrite Hs, H0, H1, Hd.
  pose proof (static_cast_uint16_range count_in). lia.
Qed.

Lemma estimator_live_step (count_in : double) (e : Estimator) :
  estimator_live e -> estimator_live (fst (counterTD count_in false e)).
Proof.
  intros (Hs & Hd & H0 & H1).
  destruct (counterTD_live count_in e) as [Hlive _].
  pose proof (static_cast_uint16_range count_in).
  pose proof (next_single_range _ Hs).
  revert Hlive. generalize (fst (counterTD count_in false e)) as e1.
  intros e1 Hlive. unfold live_cells, estimator_live in *.
  destruct (_ =? _); injection Hlive as -> -> -> ->; lia.
Qed.

Lemma estimator_live_call (count_in : double) (reset : bool) (e : Estimator) :
  estimator_live e -> estimator_live (fst (counterTD count_in reset e)).
Proof.
  destruct reset; [intros _; apply estimator_live_reset|apply estimator_live_step].
Qed.

Lemma counterTD_bounded (count_in : double) (reset : bool) (e : Estimator) :
  estimator_live e ->
  (abs (snd (counterTD count_in reset e)) <=? 100)%float = true.
Proof.
  intros (Hs & Hd & H0 & H1). destruct reset; [reflexivity|].
  destruct (counterTD_live count_in e) as [_ ->].
  pose proof (static_cast_uint16_range count_in).
  destruct (_ =? _); apply sanity_quotient; lia.
Qed.

Lemma run_counterTD_bounded (calls : list (double * bool)) (e : Estimator) :
  estimator_live e ->
  Forall (fun out => (abs out <=? 100)%float = true) (snd (run_counterTD calls e)).
Proof.
  revert e. induction calls as [|[count_in reset] rest IH]; intros e He;
    [constructor|].
  cbn [run_counterTD].
  pose proof (counterTD_bounded count_in reset e He) as Hout.
  pose proof (estimator_live_call count_in reset e He) as He'.
  destruct (counterTD count_in reset e) as [e' out]. cbn [fst snd] in *.
  specialize (IH e' He'). destruct (run_counterTD rest e') as [e'' outs].
  cbn [snd] in *. now constructor.
Qed.

(** The first call of [counterTD] resets: [init] sets [reset_], the position
    integration keeps it, and [control] with [reset] starts with
    [counterTD(current_pulse, true)]. *)
Lemma init_reset (nh : Params) (c : VescWheelController) :
  reset_ (init nh c) = true.
Proof. reflexivity. Qed.

Lemma integrate_position_reset (c : VescWheelController) :
  reset_ c = true -> reset_ (integrate_position c) = true.
Proof.
  intros Hr. unfold integrate_position.
  now destruct (_ <? _)%float.
Qed.

Lemma control_resync_estimator (target_velocity current_pulse : double)
    (c : VescWheelController) :
  estimator (control_resync target_velocity current_pulse true c)
  = fst (counterTD current_pulse true (estimator c)).
Proof.
  unfold control_resync, call_counterTD.
  cbn [estimator set_error_integ_prev set_error_integ set_error_dt set_error
       set_target_pulse].
  now destruct (counterTD current_pulse true (estimator c)).
Qed.

(** C10, as the code has it.  The fields of the estimator are first written
    by a call that resets.  After that call and any further calls, the
    since-last-change counter is between 1 and 100, the dwell of each of the
    ten slots is at least 1, the dwell of slot 0 (the divisor) is not zero,
    and every value returned is a number of magnitude at most 100, not a NaN
    and not an infinity. *)
Theorem C10_estimator_invariant (count_in : double)
    (calls : list (double * bool)) (e : Estimator) :
  let run := run_counterTD ((count_in, true) :: calls) e in
  1 <= counter_changed_single_ (fst run) <= 100 /\
  dwell_positive (fst run) /\
  counter_changed_log_ (fst run) 0%nat 1%nat <> 0 /\
  Forall (fun out => (abs out <=? 100)%float = true) (snd run).
Proof.
  intros run.
  assert (Hrun : estimator_inv (fst run) /\
                 Forall (fun out => (abs out <=? 100)%float = true) (snd run)).
  { unfold run. cbn [run_counterTD].
    pose proof (estimator_inv_reset count_in e) as He.
    pose proof (estimator_live_reset count_in e) as Hl.
    destruct (counterTD count_in true e) as [e' out] eqn:Hc.
    assert (Hout : out = 0%float) by (now inversion Hc).
    cbn [fst] in He, Hl.
    pose proof (estimator_inv_run calls e' He) as Hr.
    pose proof (run_counterTD_bounded calls e' Hl) as Hb.
    destruct (run_counterTD calls e') as [e'' outs]. cbn [fst snd] in *.
    split; [exact Hr|]. constructor; [now rewrite Hout|exact Hb]. }
  destruct Hrun as [[Hs Hd] Hb]. repeat split; try tauto.
  pose proof (proj1 (Forall_forall _ _) Hd 0%nat) as H0.
  cbv beta in H0. assert (1 <= counter_changed_log_ (fst run) 0%nat 1%nat).
  { apply H0. simpl. auto. }
  lia.
Qed.

(** C10 as stated fails when no call has reset.  On an estimator whose
    memory is all zero, a call that does not reset and reads the count 0
    leaves the dwell of slot 0 at 0, divides 0 by it and returns a NaN. *)
Lemma C10_counterexample :
  let run := run_counterTD [(0%float, false)] zero_estimator in
  counter_changed_log_ (fst run) 0%nat 1%nat = 0 /\
  ~ dwell_positive (fst run) /\
  snd run = [nan].
Proof.
  intros run. split; [reflexivity|]. split; [|vm_compute; reflexivity].
  intros H. unfold dwell_positive in H.
  pose proof (proj1 (Forall_forall _ _) H 0%nat ltac:(simpl; auto)) as H0.
  vm_compute in H0. now apply H0.
Qed.

(** ** Counts that wrap *)

Lemma static_cast_uint16_integral (d : double) (a : Z) :
  integral_value d = Some a -> INT_MIN <= a <= INT_MAX ->
  static_cast_uint16 d = a mod 65536.
Proof.
  intros Hd Ha.
  assert (Ht : trunc_double d = Some a).
  { unfold integral_value in Hd. unfold trunc_double.
    destruct (Prim2SF d) as [s|s| |s m e]; try discriminate; [exact Hd|].
    destruct (0 <=? e); [exact Hd|].
    destruct (Z.pos m mod 2 ^ (- e) =? 0); [exact Hd|discriminate]. }
  unfold static_cast_uint16. rewrite Ht.
  destruct (Z.leb_spec INT_MIN a); [|lia].
  destruct (Z.leb_spec a INT_MAX); [reflexivity|lia].
Qed.

Lemma congruent16_cast (x y : double) :
  congruent16 x y -> static_cast_uint16 x = static_cast_uint16 y.
Proof.
  intros ((a & Ha & Hra) & (b & Hb & Hrb) & (a' & b' & Ha' & Hb' & Hab)).
  assert (a' = a) by congruence. assert (b' = b) by congruence. subst a' b'.
  now rewrite (static_cast_uint16_integral x a Ha Hra),
    (static_cast_uint16_integral y b Hb Hrb).
Qed.

Lemma counterTD_cast (x y : double) (reset : bool) (e : Estimator) :
  static_cast_uint16 x = static_cast_uint16 y ->
  counterTD x reset e = counterTD y reset e.
Proof. intros H. unfold counterTD. now rewrite H. Qed.

(** C2, as the code has it.  Two sequences of raw counts that an [int]
    holds and that are tickwise congruent modulo 2^16, fed from the same
    state with [reset = false], give the same derivative at every tick (so
    the same magnitude). *)
Theorem C2_wraparound_invariance (xs ys : list double) (e : Estimator) :
  Forall2 congruent16 xs ys ->
  snd (run_counterTD (ticks xs) e) = snd (run_counterTD (ticks ys) e).
Proof.
  intros H. revert e. induction H as [|x y xs ys Hxy _ IH]; intros e;
    [reflexivity|].
  cbn [ticks map run_counterTD].
  rewrite (counterTD_cast x y false e (congruent16_cast x y Hxy)).
  destruct (counterTD y false e) as [e' out].
  specialize (IH e'). unfold ticks in IH.
  destruct (run_counterTD (map _ xs) e') as [e1 outs1].
  destruct (run_counterTD (map _ ys) e') as [e2 outs2].
  cbn [snd] in *. now rewrite IH.
Qed.

Lemma int_count_of (x : double) (a : Z) :
  integral_value x = Some a -> (INT_MIN <=? a) && (a <=? INT_MAX) = true ->
  int_count x.
Proof.
  intros Hx Ha. exists a. split; [exact Hx|].
  apply andb_true_iff in Ha. destruct Ha as [H1 H2].
  apply Z.leb_le in H1, H2. now split.
Qed.

Lemma congruent16_of (x y : double) (a b : Z) :
  integral_value x = Some a -> integral_value y = Some b ->
  (INT_MIN <=? a) && (a <=? INT_MAX) = true ->
  (INT_MIN <=? b) && (b <=? INT_MAX) = true ->
  a mod 65536 = b mod 65536 ->
  congruent16 x y.
Proof.
  intros Hx Hy Ha Hb Hab. split; [exact (int_count_of x a Hx Ha)|].
  split; [exact (int_count_of y b Hy Hb)|]. now exists a, b.
Qed.

Lemma wrapped_unwrapped_congruent : Forall2 congruent16 wrapped_counts unwrapped_counts.
Proof.
  unfold wrapped_counts, unwrapped_counts.
  refine (Forall2_cons _ _ _ (Forall2_cons _ _ _ (Forall2_cons _ _ _
            (Forall2_cons _ _ _ (Forall2_nil _))))).
  - apply (congruent16_of 65534 65534 65534 65534); reflexivity.
  - apply (congruent16_of 65535 65535 65535 65535); reflexivity.
  - apply (congruent16_of 0 65536 0 65536); reflexivity.
  - apply (congruent16_of 1 65537 1 65537); reflexivity.
Qed.

(** At the tick of the wrap both runs return 0: the difference 0 - 65535 is
    taken in [int] and the sanity clamp discards it. *)
Example wrapped_run :
  snd (run_counterTD (ticks wrapped_counts)
         (fst (counterTD 65533 true zero_estimator)))
  = [1; 1; 0; 1]%float.
Proof. vm_compute. reflexivity. Qed.

Lemma C2_wraparound_invariance_witness :
  Forall2 congruent16 wrapped_counts unwrapped_counts /\
  snd (run_counterTD (ticks wrapped_counts)
         (fst (counterTD 65533 true zero_estimator)))
  = snd (run_counterTD (ticks unwrapped_counts)
           (fst (counterTD 65533 true zero_estimator))).
Proof.
  split; [exact wrapped_unwrapped_congruent|].
  apply C2_wraparound_invariance. exact wrapped_unwrapped_congruent.
Defined.

(** C2 as stated fails for counts that an [int] does not hold.  The wrapped
    sequence moved up by 2^32 is tickwise congruent to it modulo 2^16, but
    the conversion reads each of its counts as 0: the estimator returns 0 at
    every tick, and 1 at three of the four ticks of the wrapped sequence. *)
Lemma C2_counterexample :
  let e := fst (counterTD 65533 true zero_estimator) in
  Forall2 congruent_mod_2_16 wrapped_counts far_counts /\
  map abs (snd (run_counterTD (ticks wrapped_counts) e)) = [1; 1; 0; 1]%float /\
  map abs (snd (run_counterTD (ticks far_counts) e)) = [0; 0; 0; 0]%float.
Proof.
  intros e. split; [|split; vm_compute; reflexivity].
  unfold wrapped_counts, far_counts, congruent_mod_2_16.
  repeat constructor.
  - exists 65534, 4295032830. now vm_compute.
  - exists 65535, 4295032831. now vm_compute.
  - exists 0, 4294967296. now vm_compute.
  - exists 1, 4294967297. now vm_compute.
Qed.

(** ** The dwell of a count *)

Lemma run_counterTD_app (calls1 calls2 : list (double * bool)) (e : Estimator) :
  run_counterTD (calls1 ++ calls2) e
  = let '(e1, outs1) := run_counterTD calls1 e in
    let '(e2, outs2) := run_counterTD calls2 e1 in
    (e2, outs1 ++ outs2).
Proof.
  revert e. induction calls1 as [|[count_in reset] rest IH]; intros e.
  - cbn. now destruct (run_counterTD calls2 e).
  - cbn [app run_counterTD]. destruct (counterTD count_in reset e) as [e' out].
    rewrite IH. destruct (run_counterTD rest e') as [e1 outs1].
    now destruct (run_counterTD calls2 e1).
Qed.

(** [k] ticks on which the count of slot 0 is read again: the counter
    advances by [k], as long as it stays within the cap. *)
Lemma run_unchanged (count_in : double) (k : nat) (e : Estimator) :
  counter_changed_log_ e 0%nat 0%nat = static_cast_uint16 count_in ->
  counter_changed_single_ e + Z.of_nat k <= 100 ->
  let e' := fst (run_counterTD (ticks (repeat count_in k)) e) in
  counter_changed_log_ e' 0%nat 0%nat = static_cast_uint16 count_in /\
  counter_changed_single_ e' = counter_changed_single_ e + Z.of_nat k.
Proof.
  revert e. induction k as [|k IH]; intros e H0 Hk.
  - cbn. split; [exact H0|lia].
  - cbn [repeat ticks map run_counterTD].
    destruct (counterTD_unchanged count_in e H0) as (Hs & Hl & _).
    destruct (counterTD count_in false e) as [e1 out]. cbn [fst] in Hs, Hl.
    assert (H1 : counter_changed_log_ e1 0%nat 0%nat = static_cast_uint16 count_in)
      by (now rewrite Hl).
    assert (Hs1 : counter_changed_single_ e1 = counter_changed_single_ e + 1).
    { rewrite Hs. unfold next_single.
      destruct (Z.ltb_spec (counter_changed_single_ e) 100); lia. }
    specialize (IH e1 H1). fold (ticks (repeat count_in k)) .
    destruct (run_counterTD (ticks (repeat count_in k)) e1) as [e2 outs].
    cbn [fst] in *. destruct IH as [IH0 IHs]; [lia|].
    split; [exact IH0|lia].
Qed.

(** The derivative at the tick that ends a dwell: the double quotient of the
    difference by the dwell, through the sanity clamp. *)
Lemma dwell_derivative (c1 c2 : double) (N : nat) (e : Estimator) :
  (1 <= N <= 100)%nat ->
  counter_changed_log_ e 0%nat 0%nat <> static_cast_uint16 c1 ->
  static_cast_uint16 c2 <> static_cast_uint16 c1 ->
  last (snd (run_counterTD (ticks (repeat c1 N ++ [c2])) e)) 0%float
  = sanity (double_of_int (static_cast_uint16 c2 - static_cast_uint16 c1)
            / double_of_int (Z.of_nat N))%float.
Proof.
  intros HN Hc1 Hc2.
  destruct N as [|k]; [lia|].
  unfold ticks. rewrite map_app. cbn [repeat map app run_counterTD].
  destruct (counterTD_changed c1 e Hc1) as (Hs1 & H01 & _).
  destruct (counterTD c1 false e) as [e1 out1]. cbn [fst] in Hs1, H01.
  change (map (fun count_in : double => (count_in, false)) (repeat c1 k))
    with (ticks (repeat c1 k)).
  rewrite run_counterTD_app.
  destruct (run_unchanged c1 k e1 H01) as [H0 Hs]; [lia|].
  destruct (run_counterTD (ticks (repeat c1 k)) e1) as [e2 outs].
  cbn [fst] in H0, Hs. cbn [map run_counterTD].
  destruct (counterTD_changed c2 e2) as (_ & _ & _ & _ & _ & _ & _ & _ & Hout);
    [rewrite H0; congruence|].
  destruct (counterTD c2 false e2) as [e3 out3]. cbn [snd] in *.
  rewrite app_comm_cons, last_last, Hout, H0, Hs, Hs1.
  replace (1 + Z.of_nat k) with (Z.of_nat (S k)) by lia. reflexivity.
Qed.

(** C6, as the code has it.  A count that differs from slot 0 is read on [N]
    ticks running, [N] from 1 to 100 (the first of them is the tick of the
    change), and then a count that differs from it by [delta] at sixteen
    bits.  The call of that last tick returns the double quotient
    [delta / N], the quotient rounded to the nearest double, passed through
    the sanity clamp: the quotient itself when [delta] is at most [100 * N]
    in magnitude, and 0 when it is larger. *)
Theorem C6_dwell_derivative (c1 c2 : double) (N : nat) (e : Estimator) :
  (1 <= N <= 100)%nat ->
  counter_changed_log_ e 0%nat 0%nat <> static_cast_uint16 c1 ->
  static_cast_uint16 c2 <> static_cast_uint16 c1 ->
  let delta := static_cast_uint16 c2 - static_cast_uint16 c1 in
  let q := (double_of_int delta / double_of_int (Z.of_nat N))%float in
  let out := last (snd (run_counterTD (ticks (repeat c1 N ++ [c2])) e)) 0%float in
  out = sanity q /\
  (Z.abs delta <= 100 * Z.of_nat N -> out = q) /\
  (100 * Z.of_nat N < Z.abs delta -> out = 0%float).
Proof.
  intros HN Hc1 Hc2 delta q out.
  assert (Hout : out = sanity q) by (now apply dwell_derivative).
  split; [exact Hout|]. split; intros Hdelta.
  - pose proof (quotient_in_range N delta HN Hdelta) as Hpass.
    fold q in Hpass. rewrite Hout. unfold sanity. now rewrite Hpass.
  - assert (Hrange : Z.abs delta <= 65535).
    { pose proof (static_cast_uint16_range c1).
      pose proof (static_cast_uint16_range c2). unfold delta. lia. }
    pose proof (quotient_out_of_range N delta HN (conj Hdelta Hrange)) as Hstop.
    fold q in Hstop. rewrite Hout. unfold sanity. now rewrite Hstop.
Qed.

(** Three ticks on 1001 and then 1003: the derivative is 2/3.  One tick on
    1001 and then 1201: the derivative is 0. *)
Lemma C6_dwell_derivative_witness :
  let e := fst (counterTD 1000 true zero_estimator) in
  ((1 <= 3 <= 100)%nat /\
   counter_changed_log_ e 0%nat 0%nat <> static_cast_uint16 1001 /\
   static_cast_uint16 1003 <> static_cast_uint16 1001 /\
   Z.abs (static_cast_uint16 1003 - static_cast_uint16 1001) <= 100 * Z.of_nat 3 /\
   last (snd (run_counterTD (ticks (repeat 1001%float 3 ++ [1003%float])) e)) 0%float
   = (double_of_int (static_cast_uint16 1003 - static_cast_uint16 1001)
      / double_of_int (Z.of_nat 3))%float) /\
  ((1 <= 1 <= 100)%nat /\
   static_cast_uint16 1201 <> static_cast_uint16 1001 /\
   100 * Z.of_nat 1 < Z.abs (static_cast_uint16 1201 - static_cast_uint16 1001) /\
   last (snd (run_counterTD (ticks (repeat 1001%float 1 ++ [1201%float])) e)) 0%float
   = 0%float).
Proof.
  intros e.
  assert (H0 : (1 <= 3 <= 100)%nat) by lia.
  assert (H0' : (1 <= 1 <= 100)%nat) by lia.
  assert (H1 : counter_changed_log_ e 0%nat 0%nat <> static_cast_uint16 1001)
    by (vm_compute; discriminate).
  assert (H2 : static_cast_uint16 1003 <> static_cast_uint16 1001)
    by (vm_compute; discriminate).
  assert (H2' : static_cast_uint16 1201 <> static_cast_uint16 1001)
    by (vm_compute; discriminate).
  assert (H3 : Z.abs (static_cast_uint16 1003 - static_cast_uint16 1001)
               <= 100 * Z.of_nat 3) by (vm_compute; discriminate).
  assert (H3' : 100 * Z.of_nat 1
                < Z.abs (static_cast_uint16 1201 - static_cast_uint16 1001))
    by (vm_compute; reflexivity).
  destruct (C6_dwell_derivative 1001 1003 3 e H0 H1 H2) as (_ & Hin & _).
  destruct (C6_dwell_derivative 1001 1201 1 e H0' H1 H2') as (_ & _ & Hout).
  exact (conj (conj H0 (conj H1 (conj H2 (conj H3 (Hin H3)))))
              (conj H0' (conj H2' (conj H3' (Hout H3'))))).
Defined.

Example dwell_three_ticks :
  last (snd (run_counterTD (ticks [1001; 1001; 1001; 1003]%float)
               (fst (counterTD 1000 true zero_estimator)))) 0%float
  = (2 / 3)%float.
Proof. vm_compute. reflexivity. Qed.

(** C6 as stated fails: a count that changes by 200 after a dwell of one tick
    gives 0, and the quotient is 200. *)
Lemma C6_counterexample :
  let e := fst (counterTD 1000 true zero_estimator) in
  let out := last (snd (run_counterTD (ticks (repeat 1001%float 1 ++ [1201%float])) e))
               0%float in
  counter_changed_log_ e 0%nat 0%nat <> static_cast_uint16 1001 /\
  static_cast_uint16 1201 - static_cast_uint16 1001 = 200 /\
  out = 0%float /\
  (double_of_int 200 / double_of_int (Z.of_nat 1))%float = 200%float.
Proof.
  intros e out. split; [vm_compute; discriminate|].
  split; [|split]; vm_compute; reflexivity.
Qed.

(** ** What [control] keeps and what it writes *)

Lemma duty_limiter_control_pid (target_velocity current_pulse : double)
    (c : VescWheelController) :
  duty_limiter_ (control_pid target_velocity current_pulse c) = duty_limiter_ c.
Proof.
  unfold control_pid, call_counterTD.
  destruct (counterTD current_pulse false (estimator c)). reflexivity.
Qed.

Lemma duty_limiter_control_resync (target_velocity current_pulse : double)
    (reset : bool) (c : VescWheelController) :
  duty_limiter_ (control_resync target_velocity current_pulse reset c)
  = duty_limiter_ c.
Proof.
  unfold control_resync, call_counterTD. destruct reset; [|reflexivity].
  match goal with |- context [counterTD ?a ?b ?e] => destruct (counterTD a b e) end.
  reflexivity.
Qed.

Lemma duty_limiter_control_antiwindup (c : VescWheelController) (duty : double) :
  duty_limiter_ (fst (control_antiwindup c duty)) = duty_limiter_ c.
Proof.
  unfold control_antiwindup, windup_rollback, integ_clamp.
  destruct (antiwindup_ c); [|reflexivity].
  repeat match goal with
    | |- context [if ?b then _ else _] => destruct b
    end; reflexivity.
Qed.

Lemma duty_limiter_control_terms (target_velocity current_pulse : double)
    (reset : bool) (c : VescWheelController) :
  duty_limiter_ (control_terms target_velocity current_pulse reset c)
  = duty_limiter_ c.
Proof.
  unfold control_terms. rewrite duty_limiter_control_pid.
  cbn [set_target_pulse duty_limiter_]. apply duty_limiter_control_resync.
Qed.

Lemma control_calls (target_velocity current_pulse : double) (reset : bool)
    (c : VescWheelController) :
  exists duty,
    snd (control target_velocity current_pulse reset c)
    = [setDutyCycle (emitted_duty target_velocity
         (std_clamp duty (- duty_limiter_ c) (duty_limiter_ c)))].
Proof.
  unfold control.
  match goal with
  | |- context [control_antiwindup ?c1 ?d] =>
      pose proof (duty_limiter_control_antiwindup c1 d) as Hl;
      rewrite duty_limiter_control_terms in Hl;
      destruct (control_antiwindup c1 d) as [c2 duty]
  end.
  cbn [fst snd] in *. rewrite Hl.
  eexists; reflexivity.
Qed.

Lemma control_terms_fields (target_velocity current_pulse : double)
    (c : VescWheelController) :
  error_integ_prev_ (control_terms target_velocity current_pulse false c)
  = error_integ_ c /\
  error_integ_ (control_terms target_velocity current_pulse false c)
  = (error_integ_ c
     + error_ (control_terms target_velocity current_pulse false c)
       / control_rate_ (control_terms target_velocity current_pulse false c))%float /\
  antiwindup_ (control_terms target_velocity current_pulse false c)
  = antiwindup_ c.
Proof.
  unfold control_terms, control_resync, control_pid, call_counterTD.
  cbn [set_target_pulse estimator].
  destruct (counterTD current_pulse false (estimator c)) as [e td].
  repeat split.
Qed.





Lemma target_pulse_integ_clamp (c : VescWheelController) :
  target_pulse_ (integ_clamp c) = target_pulse_ c.
Proof.
  unfold integ_clamp.
  repeat match goal with
    | |- context [if ?b then _ else _] => destruct b
    end; reflexivity.
Qed.

Lemma target_pulse_windup_rollback (c : VescWheelController) (duty : double) :
  target_pulse_ (fst (windup_rollback c duty)) = target_pulse_ c.
Proof.
  unfold windup_rollback.
  repeat match goal with
    | |- context [if ?b then _ else _] => destruct b
    end; reflexivity.
Qed.

Lemma target_pulse_control_pid (target_velocity current_pulse : double)
    (c : VescWheelController) :
  target_pulse_ (control_pid target_velocity current_pulse c) = target_pulse_ c.
Proof.
  unfold control_pid, call_counterTD.
  destruct (counterTD current_pulse false (estimator c)). reflexivity.
Qed.

Lemma num_motor_pole_pairs_control_resync (target_velocity current_pulse : double)
    (reset : bool) (c : VescWheelController) :
  num_motor_pole_pairs_ (control_resync target_velocity current_pulse reset c)
  = num_motor_pole_pairs_ c.
Proof.
  unfold control_resync, call_counterTD. destruct reset; [|reflexivity].
  match goal with |- context [counterTD ?a ?b ?e] => destruct (counterTD a b e) end.
  reflexivity.
Qed.

(** The target [control] leaves in the object: the target of lines 61-73,
    through the overflow check and then the deviation limit. *)
Lemma target_pulse_control (target_velocity current_pulse : double) (reset : bool)
    (c : VescWheelController) :
  target_pulse_ (fst (control target_velocity current_pulse reset c))
  = limit_error
      (overflow_check
         (target_pulse_ (control_resync target_velocity current_pulse reset c)))
      current_pulse (num_motor_pole_pairs_ c).
Proof.
  unfold control, control_antiwindup.
  set (c1 := control_terms target_velocity current_pulse reset c).
  assert (H1 : target_pulse_ c1
               = limit_error
                   (overflow_check
                      (target_pulse_
                         (control_resync target_velocity current_pulse reset c)))
                   current_pulse (num_motor_pole_pairs_ c)).
  { unfold c1, control_terms. now rewrite target_pulse_control_pid. }
  destruct (antiwindup_ c1).
  - pose proof (target_pulse_windup_rollback c1 (pid_duty c1)) as H2.
    destruct (windup_rollback c1 (pid_duty c1)) as [c2 duty]. cbn [fst] in *.
    now rewrite target_pulse_integ_clamp, H2.
  - exact H1.
Qed.

(** ** The duty handed to the interface *)

Lemma std_clamp_bound (v L : double) :
  (0 <=? L)%float = true ->
  not_nan (std_clamp v (- L) L) = true ->
  (abs (std_clamp v (- L) L) <=? L)%float = true.
Proof.
  unfold not_nan, std_clamp, std_min, std_max. intros HL.
  rewrite leb_spec in HL.
  destruct (v <? - L)%float eqn:Hlo.
  - destruct (L <? - L)%float eqn:Hhi; intros _.
    + rewrite leb_spec, abs_spec. now apply SFleb_abs_self.
    + rewrite leb_spec, abs_spec, opp_spec. now apply SFleb_abs_opp.
  - destruct (L <? v)%float eqn:Hhi; intros Hv.
    + rewrite leb_spec, abs_spec. now apply SFleb_abs_self.
    + rewrite ltb_spec in Hlo, Hhi. rewrite opp_spec in Hlo.
      rewrite eqb_spec in Hv.
      rewrite leb_spec, abs_spec. now apply SFleb_abs_between.
Qed.

(** C8.  When the magnitude of the target velocity is below 0.0001, the duty
    [control] hands to [setDutyCycle] is 0.0, whatever the object holds. *)
Theorem C8_dead_band (target_velocity current_pulse : double) (reset : bool)
    (c : VescWheelController) :
  (abs target_velocity <? 0.0001)%float = true ->
  snd (control target_velocity current_pulse reset c) = [setDutyCycle 0.0%float].
Proof.
  intros Hdead.
  destruct (control_calls target_velocity current_pulse reset c) as [duty ->].
  unfold emitted_duty. now rewrite Hdead.
Qed.

Lemma C8_dead_band_witness :
  (abs 0.00005 <? 0.0001)%float = true /\
  snd (control 0.00005%float 1003%float false
         (fst (control 10%float 1000%float true (scenario zero_object))))
  = [setDutyCycle 0.0%float].
Proof.
  split; [reflexivity|]. apply C8_dead_band. reflexivity.
Defined.

(** C9, as the code has it.  With a duty limit that is not negative, the
    value [control] hands to [setDutyCycle] has a magnitude of at most the
    limit, with or without anti-windup, unless it is a NaN: [std::clamp] lets
    a NaN through. *)
Theorem C9_duty_within_limit (target_velocity current_pulse : double)
    (reset : bool) (c : VescWheelController) :
  (0 <=? duty_limiter_ c)%float = true ->
  Forall (fun d => nan_or_within (duty_limiter_ c) d = true)
    (duties (snd (control target_velocity current_pulse reset c))).
Proof.
  intros HL.
  destruct (control_calls target_velocity current_pulse reset c) as [duty ->].
  cbn [duties]. constructor; [|constructor].
  unfold nan_or_within, emitted_duty.
  destruct (abs target_velocity <? 0.0001)%float.
  - change (abs 0.0) with 0%float. rewrite HL. apply orb_true_r.
  - destruct (not_nan (std_clamp duty (- duty_limiter_ c) (duty_limiter_ c))) eqn:Hn;
      [|reflexivity].
    cbn [negb orb]. now apply std_clamp_bound.
Qed.

Lemma C9_duty_within_limit_witness :
  (0 <=? duty_limiter_ (scenario zero_object))%float = true /\
  Forall (fun d => nan_or_within (duty_limiter_ (scenario zero_object)) d = true)
    (duties (snd (control 500%float 1000%float true (scenario zero_object)))).
Proof.
  split; [reflexivity|]. apply C9_duty_within_limit. reflexivity.
Defined.

(** C9 as stated fails: a NaN target velocity reaches [setDutyCycle] as a NaN,
    whose magnitude is not below any limit. *)
Lemma C9_counterexample :
  (0 <=? duty_limiter_ (scenario zero_object))%float = true /\
  snd (control nan 1000%float true (scenario zero_object)) = [setDutyCycle nan] /\
  (abs nan <=? duty_limiter_ (scenario zero_object))%float = false.
Proof. vm_compute. repeat (split; [reflexivity|]). reflexivity. Qed.

(** ** The end-to-end scenario *)

(** C1, as the code has it.  In the scenario the first call
    [control(10, 1000, true)] hands 0.025 to [setDutyCycle]: the position
    error and the integral are zero, and the derivative term is
    [kd * (10 - 0)]. *)
Theorem C1_first_call_duty (c : VescWheelController) :
  snd (control 10%float 1000%float true (scenario c)) = [setDutyCycle 0.025%float].
Proof.
  destruct c. vm_compute. reflexivity.
Qed.

(** The second call of the scenario, on the count 1003: the target advances
    to 1000.2228..., the estimated velocity is 1.5 counts per tick, and the
    duty is within the limit. *)
Example scenario_second_call :
  let c1 := fst (control 10 1000 true (scenario zero_object)) in
  snd (control 10 1003 false c1) = [setDutyCycle (-0.15746324014863411)].
Proof. vm_compute. reflexivity. Qed.

(** C1 as stated fails: the duty of the first call is not 0. *)
Lemma C1_counterexample :
  exists d,
    snd (control 10%float 1000%float true (scenario zero_object)) = [setDutyCycle d]
    /\ (d =? 0)%float = false.
Proof. exists 0.025%float. vm_compute. split; reflexivity. Qed.

(** ** A jump of the pulse count *)



(** ** Anti-windup *)








Lemma run_control_cons (target_velocity current_pulse : double)
    (rest : list (double * double)) (c : VescWheelController) :
  run_control ((target_velocity, current_pulse) :: rest) c
  = run_control rest (fst (control target_velocity current_pulse false c)).
Proof. lazy beta iota delta [run_control]. fold run_control. reflexivity. Qed.






(** ** The overflow check of the target *)

(** A target above [LONG_MAX] by at most 2^63 comes back between 0 and
    [LONG_MAX]. *)
Lemma overflow_check_high (t : double) :
  (double_of_int LONG_MAX <? t)%float = true ->
  (t <=? wrap_width)%float = true ->
  (0 <=? overflow_check t)%float = true /\
  (overflow_check t <=? double_of_int LONG_MAX)%float = true.
Proof.
  intros H1 H2. unfold overflow_check. rewrite H1.
  rewrite !leb_spec, add_spec, Prim2SF_LONG_MAX, Prim2SF_LONG_MIN.
  change (Prim2SF 0) with (S754_zero false).
  rewrite ltb_spec, Prim2SF_LONG_MAX in H1.
  rewrite leb_spec, Prim2SF_wrap_width in H2.
  pose proof (Prim2SF_valid t) as Hv.
  destruct (Prim2SF t) as [s|s| |s m e]; try discriminate;
    try (destruct s; discriminate).
  destruct s; [discriminate|].
  unfold SFltb, SFcompare in H1. unfold SFleb, SFcompare in H2.
  destruct (Z.compare_spec 11 e) as [He1|He1|He1]; try discriminate;
    destruct (Z.compare_spec e 12) as [He2|He2|He2]; try discriminate;
    try lia.
  - (* e = 11 *)
    subst e. pose proof (valid_mantissa false m 11 Hv ltac:(lia)) as Hm.
    assert (Hlt : Z.pos 4503599627370496 < Z.pos m).
    { apply compare_cont_lt.
      destruct (Pos.compare_cont Eq 4503599627370496 m);
        [discriminate H1|reflexivity|discriminate H1]. }
    destruct (SFadd_wrap false m) as (mz & ez & Hadd & Hez); [lia|].
    cbn [negb] in Hadd. rewrite Hadd. split; [reflexivity|].
    unfold SFleb, SFcompare.
    destruct (Z.compare_spec ez 11); [lia|reflexivity|lia].
  - (* e = 12: the target is 2^64 *)
    subst e. pose proof (valid_mantissa false m 12 Hv ltac:(lia)) as Hm.
    assert (Hle : Z.pos m <= Z.pos 4503599627370496).
    { apply compare_cont_not_gt. intros Hgt. rewrite Hgt in H2. discriminate H2. }
    assert (m = 4503599627370496%positive) by lia. subst m.
    split; reflexivity.
Qed.

(** A target below [LONG_MIN] by at most 2^63 comes back between [LONG_MIN]
    and 0. *)
Lemma overflow_check_low (t : double) :
  (t <? double_of_int LONG_MIN)%float = true ->
  (- wrap_width <=? t)%float = true ->
  (double_of_int LONG_MIN <=? overflow_check t)%float = true /\
  (overflow_check t <=? 0)%float = true.
Proof.
  intros H1 H2. unfold overflow_check.
  assert (H0 : (double_of_int LONG_MAX <? t)%float = false).
  { rewrite ltb_spec, Prim2SF_LONG_MAX. rewrite ltb_spec, Prim2SF_LONG_MIN in H1.
    destruct (Prim2SF t) as [s|s| |s m e]; try discriminate;
      destruct s; try discriminate; reflexivity. }
  rewrite H0, H1.
  rewrite !leb_spec, add_spec, Prim2SF_LONG_MAX, Prim2SF_LONG_MIN.
  change (Prim2SF 0) with (S754_zero false).
  rewrite ltb_spec, Prim2SF_LONG_MIN in H1.
  rewrite leb_spec, opp_spec, Prim2SF_wrap_width in H2. cbn [SFopp negb] in H2.
  pose proof (Prim2SF_valid t) as Hv.
  destruct (Prim2SF t) as [s|s| |s m e]; try discriminate;
    try (destruct s; discriminate).
  destruct s; [|discriminate].
  unfold SFltb, SFcompare in H1. unfold SFleb, SFcompare in H2.
  destruct (Z.compare_spec e 11) as [He1|He1|He1]; try discriminate;
    destruct (Z.compare_spec 12 e) as [He2|He2|He2]; try discriminate;
    try lia.
  - (* e = 11 *)
    subst e. pose proof (valid_mantissa true m 11 Hv ltac:(lia)) as Hm.
    assert (Hlt : Z.pos 4503599627370496 < Z.pos m).
    { apply compare_cont_lt.
      rewrite (compare_cont_antisym m 4503599627370496).
      destruct (Pos.compare_cont Eq m 4503599627370496);
        [discriminate H1|discriminate H1|reflexivity]. }
    destruct (SFadd_wrap true m) as (mz & ez & Hadd & Hez); [lia|].
    cbn [negb] in Hadd. rewrite Hadd. split; [|reflexivity].
    unfold SFleb, SFcompare.
    destruct (Z.compare_spec 11 ez); [lia|lia|reflexivity].
  - (* e = 12: the target is -2^64 *)
    subst e. pose proof (valid_mantissa true m 12 Hv ltac:(lia)) as Hm.
    assert (Hle : Z.pos m <= Z.pos 4503599627370496).
    { apply compare_cont_not_gt. intros Hgt.
      rewrite (compare_cont_antisym m 4503599627370496), Hgt in H2.
      discriminate. }
    assert (m = 4503599627370496%positive) by lia. subst m.
    split; reflexivity.
Qed.

(** C3, as the code has it.  When the target of [control] is above
    [LONG_MAX] as a double, 2^63, the double of [LONG_MIN], -2^63, is added
    to it: it comes down by half of the width of the integer range, 2^64, and
    not by the width.  Symmetrically 2^63 is added to a target below -2^63.
    A target that is past the bound by at most 2^63 comes back into the
    range, between 0 and 2^63 or between -2^63 and 0, so the jump is not
    larger than the width.  The deviation limit then applies to the target
    so corrected. *)
Theorem C3_overflow_check (target_velocity current_pulse : double) (reset : bool)
    (c : VescWheelController) :
  let t := target_pulse_ (control_resync target_velocity current_pulse reset c) in
  target_pulse_ (fst (control target_velocity current_pulse reset c))
  = limit_error (overflow_check t) current_pulse (num_motor_pole_pairs_ c) /\
  ((double_of_int LONG_MAX <? t)%float = true ->
   overflow_check t = (t + double_of_int LONG_MIN)%float /\
   ((t <=? wrap_width)%float = true ->
    (0 <=? overflow_check t)%float = true /\
    (overflow_check t <=? double_of_int LONG_MAX)%float = true)) /\
  ((t <? double_of_int LONG_MIN)%float = true ->
   overflow_check t = (t + double_of_int LONG_MAX)%float /\
   ((- wrap_width <=? t)%float = true ->
    (double_of_int LONG_MIN <=? overflow_check t)%float = true /\
    (overflow_check t <=? 0)%float = true)) /\
  ((double_of_int LONG_MAX <? t)%float = false ->
   (t <? double_of_int LONG_MIN)%float = false ->
   overflow_check t = t) /\
  double_of_int LONG_MIN = (- double_of_int LONG_MAX)%float /\
  (double_of_int LONG_MAX + double_of_int LONG_MAX)%float = wrap_width.
Proof.
  intros t. split; [apply target_pulse_control|].
  split; [|split; [|split; [|split; reflexivity]]].
  - intros Hhigh. split.
    + unfold overflow_check. now rewrite Hhigh.
    + intros Hwidth. now apply overflow_check_high.
  - intros Hlow. split.
    + unfold overflow_check. rewrite Hlow.
      destruct (double_of_int LONG_MAX <? t)%float eqn:Hhigh; [|reflexivity].
      exfalso. rewrite ltb_spec, Prim2SF_LONG_MAX in Hhigh.
      rewrite ltb_spec, Prim2SF_LONG_MIN in Hlow.
      destruct (Prim2SF t) as [s|s| |s m e]; try discriminate;
        destruct s; discriminate.
    + intros Hwidth. now apply overflow_check_low.
  - intros Hhigh Hlow. unfold overflow_check. now rewrite Hhigh, Hlow.
Qed.

Lemma C3_overflow_check_witness :
  (let t := target_pulse_ (control_resync runaway_velocity 0 false resting_object) in
   (double_of_int LONG_MAX <? t)%float = true /\
   (t <=? wrap_width)%float = true /\
   overflow_check t = (t + double_of_int LONG_MIN)%float /\
   (0 <=? overflow_check t)%float = true /\
   (overflow_check t <=? double_of_int LONG_MAX)%float = true) /\
  (let t := target_pulse_
              (control_resync (- runaway_velocity) 0 false resting_object) in
   (t <? double_of_int LONG_MIN)%float = true /\
   (- wrap_width <=? t)%float = true /\
   overflow_check t = (t + double_of_int LONG_MAX)%float /\
   (double_of_int LONG_MIN <=? overflow_check t)%float = true /\
   (overflow_check t <=? 0)%float = true) /\
  (let t := target_pulse_ (control_resync 10 1003 false (scenario zero_object)) in
   (double_of_int LONG_MAX <? t)%float = false /\
   (t <? double_of_int LONG_MIN)%float = false /\
   overflow_check t = t).
Proof.
  split; [|split].
  - intros t.
    assert (H1 : (double_of_int LONG_MAX <? t)%float = true)
      by (vm_compute; reflexivity).
    assert (H2 : (t <=? wrap_width)%float = true) by (vm_compute; reflexivity).
    destruct (C3_overflow_check runaway_velocity 0 false resting_object)
      as (_ & Hhigh & _).
    destruct (Hhigh H1) as [Heq Hrange]. destruct (Hrange H2) as [Hlo Hhi].
    exact (conj H1 (conj H2 (conj Heq (conj Hlo Hhi)))).
  - intros t.
    assert (H1 : (t <? double_of_int LONG_MIN)%float = true)
      by (vm_compute; reflexivity).
    assert (H2 : (- wrap_width <=? t)%float = true) by (vm_compute; reflexivity).
    destruct (C3_overflow_check (- runaway_velocity) 0 false resting_object)
      as (_ & _ & Hlow & _).
    destruct (Hlow H1) as [Heq Hrange]. destruct (Hrange H2) as [Hlo Hhi].
    exact (conj H1 (conj H2 (conj Heq (conj Hlo Hhi)))).
  - intros t.
    assert (H1 : (double_of_int LONG_MAX <? t)%float = false)
      by (vm_compute; reflexivity).
    assert (H2 : (t <? double_of_int LONG_MIN)%float = false)
      by (vm_compute; reflexivity).
    destruct (C3_overflow_check 10 1003 false (scenario zero_object))
      as (_ & _ & _ & Hmid & _).
    exact (conj H1 (conj H2 (Hmid H1 H2))).
Defined.

(** C3 as stated fails.  From rest on the count 0, a target velocity of
    6.2e20 rad/s takes the target to 1.38e19, above 2^63.  The overflow check
    brings it to 4.59e18: it comes down by 2^63 and stays above the count, so
    the deviation limit leaves the target 0 + 7.  Wrapped down by the width
    2^64 it would be -4.63e18, below the count, and the deviation limit would
    leave 0 - 7. *)
Lemma C3_counterexample :
  let t := target_pulse_ (control_resync runaway_velocity 0 false resting_object) in
  (double_of_int LONG_MAX <? t)%float = true /\
  (overflow_check t =? t - wrap_width)%float = false /\
  (0 <? overflow_check t)%float = true /\
  (t - wrap_width <? 0)%float = true /\
  target_pulse_ (fst (control runaway_velocity 0 false resting_object)) = 7%float /\
  limit_error (t - wrap_width) 0 (num_motor_pole_pairs_ resting_object)
  = (-7)%float.
Proof. vm_compute. repeat (split; [reflexivity|]). reflexivity. Qed.

(** * Further properties *)

(** ** The estimator *)

Lemma table_nonzero : row_nonzero = true.
Proof. vm_compute. reflexivity. Qed.

Lemma quotient_nonzero_all (k : Z) :
  1 <= k <= 65535 ->
  quotient_nonzero (of_uint63 (Uint63.of_Z 100)) (Uint63.of_Z k) = true.
Proof.
  intros Hk. pose proof table_nonzero as Hrow. unfold row_nonzero in Hrow.
  replace k with (1 + Z.of_nat (Z.to_nat (k - 1))) by lia.
  apply (all_from_spec (Z.to_nat 65535)); [exact Hrow|lia].
Qed.

(** The quotient by 100 of a difference that is not 0 is not 0. *)
Lemma quotient_not_zero (delta : Z) :
  1 <= Z.abs delta <= 65535 ->
  (double_of_int delta / double_of_int 100 =? 0)%float = false.
Proof.
  intros Hd.
  rewrite (double_of_int_nonneg 100) by lia.
  destruct (Z.lt_ge_cases delta 0) as [Hneg|Hpos].
  - rewrite (double_of_int_neg delta) by lia.
    pose proof (quotient_nonzero_all (- delta) ltac:(lia)) as Hok.
    unfold quotient_nonzero in Hok. cbv zeta in Hok.
    apply andb_true_iff in Hok. destruct Hok as [_ Hok].
    now apply negb_true_iff in Hok.
  - rewrite (double_of_int_nonneg delta) by lia.
    pose proof (quotient_nonzero_all delta ltac:(lia)) as Hok.
    unfold quotient_nonzero in Hok. cbv zeta in Hok.
    apply andb_true_iff in Hok. destruct Hok as [Hok _].
    now apply negb_true_iff in Hok.
Qed.

(** The cells a call reads determine what it returns and the cells it
    leaves. *)
Lemma counterTD_live_cells (count_in : double) (reset : bool) (e e' : Estimator) :
  live_cells e = live_cells e' ->
  snd (counterTD count_in reset e) = snd (counterTD count_in reset e') /\
  live_cells (fst (counterTD count_in reset e))
  = live_cells (fst (counterTD count_in reset e')).
Proof.
  intros H. destruct reset.
  - split; [reflexivity|]. now rewrite !live_cells_reset.
  - destruct (counterTD_live count_in e) as [-> ->].
    destruct (counterTD_live count_in e') as [-> ->].
    unfold live_cells in H. injection H as -> -> -> ->. split; reflexivity.
Qed.

(** X3.  The estimator reads four cells only: the since-last-change counter,
    the counts of the slots 0 and 1 and the dwell of slot 0.  Two states that
    agree on them return the same values along any sequence of calls, and
    still agree afterwards: the counts of the slots 2 to 9, the dwells of
    the slots 1 to 9 and the ten stored derivatives are written and never
    read back. *)
Theorem X3_history_unused (calls : list (double * bool)) (e e' : Estimator) :
  live_cells e = live_cells e' ->
  snd (run_counterTD calls e) = snd (run_counterTD calls e') /\
  live_cells (fst (run_counterTD calls e)) = live_cells (fst (run_counterTD calls e')).
Proof.
  revert e e'. induction calls as [|[count_in reset] rest IH]; intros e e' H;
    [split; [reflexivity|exact H]|].
  cbn [run_counterTD].
  destruct (counterTD_live_cells count_in reset e e' H) as [Hout Hlive].
  destruct (counterTD count_in reset e) as [e1 out].
  destruct (counterTD count_in reset e') as [e1' out'].
  cbn [fst snd] in *. destruct (IH e1 e1' Hlive) as [Houts Hlives].
  destruct (run_counterTD rest e1) as [e2 outs].
  destruct (run_counterTD rest e1') as [e2' outs'].
  cbn [fst snd] in *. now rewrite Hout, Houts.
Qed.

Lemma X3_history_unused_witness :
  let e := fst (counterTD 1000 true zero_estimator) in
  let e' := mkEstimator 1
              (fun i j => if (i <=? 1)%nat then counter_changed_log_ e i j else 77)
              (fun _ => 5%float) [stray_td 12 1] in
  live_cells e = live_cells e' /\
  snd (run_counterTD (ticks [1001; 1001; 1003]%float) e)
  = snd (run_counterTD (ticks [1001; 1001; 1003]%float) e').
Proof.
  intros e e'.
  assert (H : live_cells e = live_cells e') by reflexivity.
  exact (conj H (proj1 (X3_history_unused (ticks [1001; 1001; 1003]%float) e e' H))).
Defined.

(** The outputs of ticks on which the count of slot 0 is read again: the
    difference of the slots 0 and 1 over the dwell, which follows the
    since-last-change counter once the counter passes it. *)
Lemma run_unchanged_outputs (count_in : double) (k j : nat) (e : Estimator) :
  counter_changed_log_ e 0%nat 0%nat = static_cast_uint16 count_in ->
  1 <= counter_changed_single_ e <= 100 ->
  (j < k)%nat ->
  nth j (snd (run_counterTD (ticks (repeat count_in k)) e)) 0%float
  = sanity (double_of_int (counter_changed_log_ e 0%nat 0%nat
                           - counter_changed_log_ e 1%nat 0%nat)
            / double_of_int
                (Z.max (counter_changed_log_ e 0%nat 1%nat)
                   (Z.min (counter_changed_single_ e + Z.of_nat j) 100)))%float.
Proof.
  revert j e. induction k as [|k IH]; intros j e H0 Hs Hj; [lia|].
  cbn [repeat ticks map run_counterTD]. fold (ticks (repeat count_in k)).
  destruct (counterTD_live count_in e) as [Hlive Hout].
  rewrite H0, Z.eqb_refl in Hlive, Hout. rewrite <- H0 in Hlive, Hout.
  destruct (counterTD count_in false e) as [e1 out]. cbn [fst snd] in Hlive, Hout.
  unfold live_cells in Hlive. injection Hlive as Hs1 H01 H11 Hd1.
  destruct j as [|j].
  - destruct (run_counterTD (ticks (repeat count_in k)) e1) as [e2 outs].
    cbn [snd nth]. rewrite Hout.
    replace (Z.min (counter_changed_single_ e + Z.of_nat 0) 100)
      with (counter_changed_single_ e) by lia.
    reflexivity.
  - assert (Hs1' : 1 <= counter_changed_single_ e1 <= 100).
    { rewrite Hs1. now apply next_single_range. }
    specialize (IH j e1 ltac:(rewrite H01; exact H0) Hs1' ltac:(lia)).
    destruct (run_counterTD (ticks (repeat count_in k)) e1) as [e2 outs].
    cbn [snd nth] in *. rewrite IH, H01, H11, Hd1, Hs1.
    f_equal. f_equal. f_equal. unfold next_single.
    destruct (Z.ltb_spec (counter_changed_single_ e) 100); lia.
Qed.

Lemma run_hold_and_decay (count_in : double) (j : nat) (e : Estimator) :
  1 <= counter_changed_single_ e <= 100 ->
  counter_changed_log_ e 0%nat 0%nat <> static_cast_uint16 count_in ->
  nth j (snd (run_counterTD (ticks (repeat count_in (S j))) e)) 0%float
  = sanity (double_of_int (static_cast_uint16 count_in
                           - counter_changed_log_ e 0%nat 0%nat)
            / double_of_int
                (Z.max (counter_changed_single_ e) (Z.min (Z.of_nat j) 100)))%float.
Proof.
  intros Hs Hne.
  cbn [repeat ticks map run_counterTD]. fold (ticks (repeat count_in j)).
  destruct (counterTD_live count_in e) as [Hlive Hout].
  apply Z.eqb_neq in Hne. rewrite Hne in Hlive, Hout.
  destruct (counterTD count_in false e) as [e1 out]. cbn [fst snd] in Hlive, Hout.
  unfold live_cells in Hlive. injection Hlive as Hs1 H01 H11 Hd1.
  destruct j as [|j].
  - cbn [repeat ticks map run_counterTD snd nth]. rewrite Hout.
    f_equal. f_equal. f_equal. lia.
  - pose proof (run_unchanged_outputs count_in (S j) j e1 H01 ltac:(lia) ltac:(lia))
      as Hrun.
    destruct (run_counterTD (ticks (repeat count_in (S j))) e1) as [e2 outs].
    cbn [snd nth] in *. rewrite Hrun, H01, H11, Hd1, Hs1.
    f_equal. f_equal. f_equal. lia.
Qed.

(** X5.  A count that differs from slot 0 by [delta] is read on the tick [0]
    and again on the ticks that follow, while the since-last-change counter
    was [N] before the change.  On the tick [j] the call returns the
    quotient of [delta] by the larger of [N] and [min j 100], through the
    sanity clamp: the value of the tick of the change is held for [N]
    ticks, then it decays as [delta / j], and from the tick 100 on it stays
    at [delta / 100]. *)
Theorem X5_hold_and_decay (count_in : double) (j : nat) (e : Estimator) :
  1 <= counter_changed_single_ e <= 100 ->
  counter_changed_log_ e 0%nat 0%nat <> static_cast_uint16 count_in ->
  nth j (snd (run_counterTD (ticks (repeat count_in (S j))) e)) 0%float
  = sanity (double_of_int (static_cast_uint16 count_in
                           - counter_changed_log_ e 0%nat 0%nat)
            / double_of_int
                (Z.max (counter_changed_single_ e) (Z.min (Z.of_nat j) 100)))%float.
Proof. exact (run_hold_and_decay count_in j e). Qed.

Lemma X5_hold_and_decay_witness :
  let e := fst (counterTD 1000 true zero_estimator) in
  1 <= counter_changed_single_ e <= 100 /\
  counter_changed_log_ e 0%nat 0%nat <> static_cast_uint16 1003 /\
  nth 5 (snd (run_counterTD (ticks (repeat 1003%float 6)) e)) 0%float
  = sanity (double_of_int (static_cast_uint16 1003
                           - counter_changed_log_ e 0%nat 0%nat)
            / double_of_int
                (Z.max (counter_changed_single_ e) (Z.min (Z.of_nat 5) 100)))%float.
Proof.
  intros e.
  assert (H1 : 1 <= counter_changed_single_ e <= 100) by (vm_compute; split; discriminate).
  assert (H2 : counter_changed_log_ e 0%nat 0%nat <> static_cast_uint16 1003)
    by (vm_compute; discriminate).
  exact (conj H1 (conj H2 (X5_hold_and_decay 1003 5 e H1 H2))).
Defined.

(** X6.  Once the count has changed by [delta], of magnitude at most 10000,
    and then stays put, the estimate does not come back to 0: from the
    hundredth tick after the change, every call returns [delta / 100],
    which is not 0. *)
Theorem X6_standstill_residual (count_in : double) (j : nat) (e : Estimator) :
  1 <= counter_changed_single_ e <= 100 ->
  0 <= counter_changed_log_ e 0%nat 0%nat <= 65535 ->
  counter_changed_log_ e 0%nat 0%nat <> static_cast_uint16 count_in ->
  (100 <= j)%nat ->
  let delta := static_cast_uint16 count_in - counter_changed_log_ e 0%nat 0%nat in
  Z.abs delta <= 10000 ->
  let out := nth j (snd (run_counterTD (ticks (repeat count_in (S j))) e)) 0%float in
  out = (double_of_int delta / double_of_int 100)%float /\
  (out =? 0)%float = false.
Proof.
  intros Hs H0 Hne Hj delta Hdelta out.
  assert (Hout : out = sanity (double_of_int delta / double_of_int 100)%float).
  { unfold out. rewrite run_hold_and_decay by assumption.
    replace (Z.max (counter_changed_single_ e) (Z.min (Z.of_nat j) 100)) with 100 by lia.
    reflexivity. }
  destruct (sanity_quotient 100 delta ltac:(lia) ltac:(lia)) as (Hin & _ & _).
  rewrite (Hin ltac:(lia)) in Hout. split; [exact Hout|].
  rewrite Hout. apply (quotient_not_zero delta).
  pose proof (static_cast_uint16_range count_in). unfold delta in *. lia.
Qed.

Lemma X6_standstill_residual_witness :
  let e := fst (counterTD 1000 true zero_estimator) in
  let out := nth 150 (snd (run_counterTD (ticks (repeat 1001%float 151)) e)) 0%float in
  out = (double_of_int 1 / double_of_int 100)%float /\ (out =? 0)%float = false.
Proof.
  intros e.
  assert (H1 : 1 <= counter_changed_single_ e <= 100) by (vm_compute; split; discriminate).
  assert (H0 : 0 <= counter_changed_log_ e 0%nat 0%nat <= 65535)
    by (vm_compute; split; discriminate).
  assert (H2 : counter_changed_log_ e 0%nat 0%nat <> static_cast_uint16 1001)
    by (vm_compute; discriminate).
  assert (H3 : (100 <= 150)%nat) by lia.
  assert (H4 : Z.abs (static_cast_uint16 1001 - counter_changed_log_ e 0%nat 0%nat)
               <= 10000) by (vm_compute; discriminate).
  exact (X6_standstill_residual 1001 150 e H1 H0 H2 H3 H4).
Defined.

(** X7.  A count that differs from slot 0 by more than 10000 (a wrap of the
    sixteen-bit count from 65535 to 0 or back is one) is never reported:
    the call of the tick of the change returns 0, and so does every call
    that reads the same count after it. *)
Theorem X7_jump_rejected (count_in : double) (j : nat) (e : Estimator) :
  1 <= counter_changed_single_ e <= 100 ->
  0 <= counter_changed_log_ e 0%nat 0%nat <= 65535 ->
  10000 < Z.abs (static_cast_uint16 count_in - counter_changed_log_ e 0%nat 0%nat) ->
  nth j (snd (run_counterTD (ticks (repeat count_in (S j))) e)) 0%float = 0%float.
Proof.
  intros Hs H0 Hjump.
  pose proof (static_cast_uint16_range count_in) as Hu.
  rewrite run_hold_and_decay; [|exact Hs|lia].
  apply sanity_quotient; lia.
Qed.

Lemma X7_jump_rejected_witness :
  let e := fst (counterTD 65535 true zero_estimator) in
  nth 0 (snd (run_counterTD (ticks (repeat 0%float 1)) e)) 0%float = 0%float /\
  nth 3 (snd (run_counterTD (ticks (repeat 0%float 4)) e)) 0%float = 0%float.
Proof.
  intros e.
  assert (H1 : 1 <= counter_changed_single_ e <= 100) by (vm_compute; split; discriminate).
  assert (H0 : 0 <= counter_changed_log_ e 0%nat 0%nat <= 65535)
    by (vm_compute; split; discriminate).
  assert (H2 : 10000 < Z.abs (static_cast_uint16 0 - counter_changed_log_ e 0%nat 0%nat))
    by (vm_compute; reflexivity).
  exact (conj (X7_jump_rejected 0 0 e H1 H0 H2) (X7_jump_rejected 0 3 e H1 H0 H2)).
Defined.

(** X4.  At rest after a reset: a call that resets on a count and any number
    of calls that read the same count all return 0. *)
Theorem X4_rest_after_reset (count_in : double) (k : nat) (e : Estimator) :
  snd (run_counterTD ((count_in, true) :: ticks (repeat count_in k)) e)
  = repeat 0%float (S k).
Proof.
  cbn [run_counterTD repeat].
  pose proof (live_cells_reset count_in e) as Hlive.
  destruct (counterTD count_in true e) as [e1 out] eqn:Hc.
  assert (Hout : out = 0%float) by (now inversion Hc). subst out.
  cbn [fst] in Hlive. unfold live_cells in Hlive.
  injection Hlive as Hs H0 H1 Hd.
  assert (Hall : forall j, (j < k)%nat ->
            nth j (snd (run_counterTD (ticks (repeat count_in k)) e1)) 0%float
            = 0%float).
  { intros j Hj.
    rewrite (run_unchanged_outputs count_in k j e1 H0 ltac:(lia) Hj).
    rewrite H0, H1, Hd, Z.sub_diag.
    destruct (sanity_quotient (Z.max 100 (Z.min (counter_changed_single_ e1 + Z.of_nat j) 100))
                0 ltac:(lia) ltac:(lia)) as (Hin & _ & _).
    rewrite (Hin ltac:(lia)).
    replace (Z.max 100 (Z.min (counter_changed_single_ e1 + Z.of_nat j) 100))
      with 100 by lia.
    reflexivity. }
  pose proof (run_counterTD_length (ticks (repeat count_in k)) e1) as Hlen.
  unfold ticks in Hlen at 2. rewrite length_map, repeat_length in Hlen.
  destruct (run_counterTD (ticks (repeat count_in k)) e1) as [e2 outs].
  cbn [snd] in *. f_equal.
  apply (nth_ext _ _ 0%float 0%float).
  - now rewrite repeat_length.
  - intros j Hj. unfold double in *. rewrite Hall by lia. now rewrite nth_repeat.
Qed.

(** X2.  A call that does not reset and reads a count that differs from the
    count of slot 0 moves the history of the counts down by one slot: the
    slots 1 to 9 receive the counts of the slots 0 to 8 and slot 0 receives
    the new count.  The dwells are not moved with the counts: slot 0
    receives the since-last-change counter and the dwells of the other slots
    stay where they are.  The stored derivatives move down by one slot, from
    0 to 8 into 1 to 9, and slot 0 receives the quotient before the sanity
    clamp, which is what the call returns through the clamp. *)
Theorem X2_history_shift (count_in : double) (e : Estimator) :
  counter_changed_log_ e 0%nat 0%nat <> static_cast_uint16 count_in ->
  let e' := fst (counterTD count_in false e) in
  counter_changed_single_ e' = 1 /\
  counter_changed_log_ e' 0%nat 0%nat = static_cast_uint16 count_in /\
  counter_changed_log_ e' 0%nat 1%nat = counter_changed_single_ e /\
  (forall i, (i <= 8)%nat ->
     counter_changed_log_ e' (S i) 0%nat = counter_changed_log_ e i 0%nat) /\
  (forall i, (1 <= i)%nat ->
     counter_changed_log_ e' i 1%nat = counter_changed_log_ e i 1%nat) /\
  (forall i, (i <= 8)%nat -> counter_td_tmp_ e' (S i) = counter_td_tmp_ e i) /\
  counter_td_tmp_ e' 0%nat
  = (double_of_int (static_cast_uint16 count_in - counter_changed_log_ e 0%nat 0%nat)
     / double_of_int (counter_changed_single_ e))%float /\
  snd (counterTD count_in false e) = sanity (counter_td_tmp_ e' 0%nat).
Proof.
  intros Hne e'.
  destruct (counterTD_changed count_in e Hne)
    as (H1 & H2 & H3 & H4 & H5 & H6 & H7 & _ & H9).
  fold e' in H1, H2, H3, H4, H5, H6, H7.
  repeat (split; [assumption|]). now rewrite H7.
Qed.

Lemma X2_history_shift_witness :
  let e := fst (counterTD 1003 false (fst (counterTD 1001 false
             (fst (counterTD 1000 true zero_estimator))))) in
  let e' := fst (counterTD 1006 false e) in
  counter_changed_log_ e 0%nat 0%nat <> static_cast_uint16 1006 /\
  map (fun i => counter_changed_log_ e i 0%nat) (seq 0 4) = [1003; 1001; 1000; 1000] /\
  map (fun i => counter_changed_log_ e' i 0%nat) (seq 0 4) = [1006; 1003; 1001; 1000] /\
  counter_changed_log_ e' 3%nat 0%nat = counter_changed_log_ e 2%nat 0%nat.
Proof.
  intros e e'.
  assert (H : counter_changed_log_ e 0%nat 0%nat <> static_cast_uint16 1006)
    by (vm_compute; discriminate).
  destruct (X2_history_shift 1006 e H) as (_ & _ & _ & Hshift & _).
  refine (conj H (conj _ (conj _ (Hshift 2%nat _)))).
  - vm_compute. reflexivity.
  - vm_compute. reflexivity.
  - lia.
Defined.

(** X1.  The log has ten rows, 0 to 9.  A call that does not reset and reads
    a count that differs from the count of slot 0 makes one store past them:
    the first round of the loop that shifts the counts stores the count of
    row 9 at [counter_changed_log_[10][0]].  A call that resets, and a call
    that reads the count of slot 0 again, store inside the ten rows and the
    ten derivatives only. *)
Theorem X1_store_past_the_log (count_in : double) (reset : bool) (e : Estimator) :
  (10 <? HISTORY_DEPTH)%nat = false /\
  stray_stores (fst (counterTD count_in reset e))
  = if reset then stray_stores e
    else if counter_changed_log_ e 0%nat 0%nat =? static_cast_uint16 count_in
         then stray_stores e
         else stray_stores e
              ++ [stray_log 10 0 (counter_changed_log_ e 9%nat 0%nat)].
Proof.
  split; [reflexivity|]. destruct reset; [apply counterTD_reset_stray|].
  destruct (Z.eqb_spec (counter_changed_log_ e 0%nat 0%nat)
              (static_cast_uint16 count_in)) as [Heq|Hne].
  - now destruct (counterTD_unchanged count_in e Heq) as (_ & _ & _ & _ & -> & _).
  - now destruct (counterTD_changed count_in e Hne)
      as (_ & _ & _ & _ & _ & _ & _ & -> & _).
Qed.

(** ** The controller and the node *)

Lemma kept_call_counterTD (count_in : double) (reset : bool) (c : VescWheelController) :
  kept_by_control (fst (call_counterTD count_in reset c)) = kept_by_control c.
Proof.
  unfold call_counterTD. now destruct (counterTD count_in reset (estimator c)).
Qed.

Lemma kept_control_resync (target_velocity current_pulse : double) (reset : bool)
    (c : VescWheelController) :
  kept_by_control (control_resync target_velocity current_pulse reset c)
  = kept_by_control c.
Proof.
  unfold control_resync. destruct reset; [|reflexivity].
  now rewrite kept_call_counterTD.
Qed.

Lemma kept_control_pid (target_velocity current_pulse : double)
    (c : VescWheelController) :
  kept_by_control (control_pid target_velocity current_pulse c) = kept_by_control c.
Proof.
  unfold control_pid.
  pose proof (kept_call_counterTD current_pulse false c) as H.
  destruct (call_counterTD current_pulse false c) as [c1 td]. cbn [fst] in H.
  rewrite <- H. reflexivity.
Qed.

Lemma kept_control_terms (target_velocity current_pulse : double) (reset : bool)
    (c : VescWheelController) :
  kept_by_control (control_terms target_velocity current_pulse reset c)
  = kept_by_control c.
Proof.
  unfold control_terms. rewrite kept_control_pid.
  rewrite <- (kept_control_resync target_velocity current_pulse reset c).
  reflexivity.
Qed.

Lemma kept_windup_rollback (c : VescWheelController) (duty : double) :
  kept_by_control (fst (windup_rollback c duty)) = kept_by_control c.
Proof.
  unfold windup_rollback.
  repeat match goal with
    | |- context [if ?b then _ else _] => destruct b
    end; reflexivity.
Qed.

Lemma kept_integ_clamp (c : VescWheelController) :
  kept_by_control (integ_clamp c) = kept_by_control c.
Proof.
  unfold integ_clamp.
  repeat match goal with
    | |- context [if ?b then _ else _] => destruct b
    end; reflexivity.
Qed.

Lemma kept_control_antiwindup (c : VescWheelController) (duty : double) :
  kept_by_control (fst (control_antiwindup c duty)) = kept_by_control c.
Proof.
  unfold control_antiwindup. destruct (antiwindup_ c); [|reflexivity].
  pose proof (kept_windup_rollback c duty) as H.
  destruct (windup_rollback c duty) as [c1 d1]. cbn [fst] in *.
  now rewrite kept_integ_clamp.
Qed.

Lemma kept_control (target_velocity current_pulse : double) (reset : bool)
    (c : VescWheelController) :
  kept_by_control (fst (control target_velocity current_pulse reset c))
  = kept_by_control c.
Proof.
  unfold control.
  match goal with
  | |- context [control_antiwindup ?c1 ?d] =>
      pose proof (kept_control_antiwindup c1 d) as H;
      destruct (control_antiwindup c1 d) as [c2 duty]
  end.
  cbn [fst] in *. rewrite H. apply kept_control_terms.
Qed.

Lemma kept_fields (c c' : VescWheelController) :
  kept_by_control c = kept_by_control c' ->
  settings c = settings c' /\ node_inputs c = node_inputs c' /\
  reset_ c = reset_ c' /\ position_sens_ c = position_sens_ c'.
Proof. unfold kept_by_control. intros H. repeat split; congruence. Qed.

Lemma set_reset_kept (v : bool) (c : VescWheelController) :
  settings (set_reset v c) = settings c /\
  node_inputs (set_reset v c) = node_inputs c /\
  reset_ (set_reset v c) = v /\
  position_sens_ (set_reset v c) = position_sens_ c /\
  velocity_sens_ (set_reset v c) = velocity_sens_ c.
Proof. repeat split. Qed.

Lemma integrate_position_kept (c : VescWheelController) :
  settings (integrate_position c) = settings c /\
  node_inputs (integrate_position c) = node_inputs c.
Proof.
  unfold integrate_position. destruct (_ <? _)%float; split; reflexivity.
Qed.

Lemma callback_state (c : VescWheelController) :
  fst (controlTimerCallback c)
  = set_reset (abs (velocity_reference_ c) <? 0.0001)%float
      (fst (control (velocity_reference_ c) (position_pulse_ c)
              (reset_ (integrate_position c)) (integrate_position c))) /\
  snd (controlTimerCallback c)
  = snd (control (velocity_reference_ c) (position_pulse_ c)
           (reset_ (integrate_position c)) (integrate_position c))
    ++ [requestState].
Proof.
  unfold controlTimerCallback.
  destruct (integrate_position_kept c) as [_ Hin].
  assert (Hv : velocity_reference_ (integrate_position c) = velocity_reference_ c)
    by (unfold node_inputs in Hin; congruence).
  assert (Hp : position_pulse_ (integrate_position c) = position_pulse_ c)
    by (unfold node_inputs in Hin; congruence).
  rewrite Hv, Hp.
  pose proof (kept_control (velocity_reference_ c) (position_pulse_ c)
                (reset_ (integrate_position c)) (integrate_position c)) as Hk.
  destruct (control _ _ _ _) as [c2 calls]. cbn [fst snd] in *.
  assert (Hv2 : velocity_reference_ c2 = velocity_reference_ c).
  { apply kept_fields in Hk. destruct Hk as (_ & Hin2 & _).
    unfold node_inputs in Hin2. congruence. }
  now rewrite Hv2.
Qed.

(** X8.  One tick of the control timer makes exactly two calls on the
    interface, in this order: [setDutyCycle], with the clamped duty or the
    0.0 of the dead band, and [requestState].  It leaves the gains, the
    limits, the rate, the motor constants, the commanded velocity, the two
    pulse counts and the effort as they are, and it leaves [reset_] set
    exactly when the commanded velocity is inside the dead band. *)
Theorem X8_timer_tick (c : VescWheelController) :
  exists duty,
    snd (controlTimerCallback c)
    = [setDutyCycle
         (emitted_duty (velocity_reference_ c)
            (std_clamp duty (- duty_limiter_ c) (duty_limiter_ c)));
       requestState] /\
    settings (fst (controlTimerCallback c)) = settings c /\
    node_inputs (fst (controlTimerCallback c)) = node_inputs c /\
    reset_ (fst (controlTimerCallback c))
    = (abs (velocity_reference_ c) <? 0.0001)%float.
Proof.
  destruct (callback_state c) as [Hst Hcalls].
  destruct (integrate_position_kept c) as [Hs Hin].
  destruct (control_calls (velocity_reference_ c) (position_pulse_ c)
              (reset_ (integrate_position c)) (integrate_position c)) as [duty Hd].
  assert (HL : duty_limiter_ (integrate_position c) = duty_limiter_ c)
    by (unfold settings in Hs; congruence).
  exists duty. rewrite Hcalls, Hd, HL, Hst.
  pose proof (kept_control (velocity_reference_ c) (position_pulse_ c)
                (reset_ (integrate_position c)) (integrate_position c)) as Hk.
  apply kept_fields in Hk. destruct Hk as (Hk1 & Hk2 & _).
  revert Hk1 Hk2.
  generalize (fst (control (velocity_reference_ c) (position_pulse_ c)
                     (reset_ (integrate_position c)) (integrate_position c))) as c2.
  intros c2 Hk1 Hk2.
  destruct (set_reset_kept (abs (velocity_reference_ c) <? 0.0001)%float c2)
    as (Hr1 & Hr2 & Hr3 & _).
  split; [reflexivity|]. split; [|split; [|exact Hr3]].
  - now rewrite Hr1, Hk1.
  - now rewrite Hr2, Hk2.
Qed.





Lemma control_resync_reset (target_velocity current_pulse : double)
    (c : VescWheelController) :
  control_memory (control_resync target_velocity current_pulse true c)
  = (control_settings c, current_pulse, 0%float,
     (1, static_cast_uint16 current_pulse, static_cast_uint16 current_pulse, 100)).
Proof.
  rewrite <- (live_cells_reset current_pulse (estimator c)).
  unfold control_resync, call_counterTD. fields.
  now destruct (counterTD current_pulse true (estimator c)).
Qed.

Lemma control_resync_memory (target_velocity current_pulse : double) (reset : bool)
    (c c' : VescWheelController) :
  control_settings c = control_settings c' ->
  reset = true \/ control_memory c = control_memory c' ->
  control_memory (control_resync target_velocity current_pulse reset c)
  = control_memory (control_resync target_velocity current_pulse reset c').
Proof.
  intros Hs Hm. destruct reset.
  - now rewrite !control_resync_reset, Hs.
  - destruct Hm as [Hm|Hm]; [discriminate|].
    unfold control_resync, control_memory, control_settings in *. fields.
    congruence.
Qed.

Lemma control_pid_memory (target_velocity current_pulse : double)
    (c c' : VescWheelController) :
  control_memory c = control_memory c' ->
  control_memory (control_pid target_velocity current_pulse c)
  = control_memory (control_pid target_velocity current_pulse c') /\
  pid_terms (control_pid target_velocity current_pulse c)
  = pid_terms (control_pid target_velocity current_pulse c') /\
  velocity_sens_ (control_pid target_velocity current_pulse c)
  = velocity_sens_ (control_pid target_velocity current_pulse c').
Proof.
  intros Hm.
  assert (Hlive : live_cells (estimator c) = live_cells (estimator c'))
    by (unfold control_memory in Hm; congruence).
  destruct (counterTD_live_cells current_pulse false _ _ Hlive) as [Hout Hl].
  unfold control_pid, call_counterTD.
  destruct (counterTD current_pulse false (estimator c)) as [e1 td].
  destruct (counterTD current_pulse false (estimator c')) as [e1' td'].
  cbn [fst snd] in Hout, Hl. subst td'.
  unfold control_memory, control_settings, pid_terms in *. fields.
  rewrite Hl. repeat split; congruence.
Qed.

Lemma control_terms_memory (target_velocity current_pulse : double) (reset : bool)
    (c c' : VescWheelController) :
  control_settings c = control_settings c' ->
  reset = true \/ control_memory c = control_memory c' ->
  control_memory (control_terms target_velocity current_pulse reset c)
  = control_memory (control_terms target_velocity current_pulse reset c') /\
  pid_terms (control_terms target_velocity current_pulse reset c)
  = pid_terms (control_terms target_velocity current_pulse reset c') /\
  velocity_sens_ (control_terms target_velocity current_pulse reset c)
  = velocity_sens_ (control_terms target_velocity current_pulse reset c').
Proof.
  intros Hs Hm. unfold control_terms. apply control_pid_memory.
  pose proof (control_resync_memory target_velocity current_pulse reset c c' Hs Hm)
    as Hr.
  assert (Hpp : num_motor_pole_pairs_ c = num_motor_pole_pairs_ c')
    by (unfold control_settings in Hs; congruence).
  rewrite Hpp. revert Hr.
  generalize (control_resync target_velocity current_pulse reset c) as r.
  generalize (control_resync target_velocity current_pulse reset c') as r'.
  intros r' r Hr. unfold control_memory, control_settings in *. fields.
  congruence.
Qed.

Lemma control_antiwindup_kept (c : VescWheelController) (duty : double) :
  let c2 := fst (control_antiwindup c duty) in
  control_settings c2 = control_settings c /\
  target_pulse_ c2 = target_pulse_ c /\
  estimator c2 = estimator c /\
  velocity_sens_ c2 = velocity_sens_ c.
Proof.
  unfold control_antiwindup, windup_rollback, integ_clamp.
  destruct (antiwindup_ c); [|repeat split].
  repeat match goal with
    | |- context [if ?b then _ else _] => destruct b
    end; repeat split.
Qed.

Lemma control_antiwindup_terms (c c' : VescWheelController) :
  control_settings c = control_settings c' ->
  pid_terms c = pid_terms c' ->
  snd (control_antiwindup c (pid_duty c)) = snd (control_antiwindup c' (pid_duty c')) /\
  error_integ_ (fst (control_antiwindup c (pid_duty c)))
  = error_integ_ (fst (control_antiwindup c' (pid_duty c'))).
Proof.
  destruct c as [kp ki kd icl dl aw rate pp gr tc rs ps vr pos prev vs es tp
                 er ed ei eip est].
  destruct c' as [kp' ki' kd' icl' dl' aw' rate' pp' gr' tc' rs' ps' vr' pos' prev'
                  vs' es' tp' er' ed' ei' eip' est'].
  unfold control_settings, pid_terms. fields. intros Hs Ht.
  injection Hs as -> -> -> -> -> -> _ _.
  injection Ht as -> -> -> ->.
  unfold control_antiwindup, windup_rollback, integ_clamp, pid_duty. fields.
  destruct aw'; [|split; reflexivity].
  repeat match goal with
    | |- context [if ?b then _ else _] => destruct b; fields
    end; split; reflexivity.
Qed.

Lemma control_alike (target_velocity current_pulse : double) (reset : bool)
    (c c' : VescWheelController) :
  control_settings c = control_settings c' ->
  reset = true \/ control_memory c = control_memory c' ->
  snd (control target_velocity current_pulse reset c)
  = snd (control target_velocity current_pulse reset c') /\
  control_memory (fst (control target_velocity current_pulse reset c))
  = control_memory (fst (control target_velocity current_pulse reset c')) /\
  velocity_sens_ (fst (control target_velocity current_pulse reset c))
  = velocity_sens_ (fst (control target_velocity current_pulse reset c')).
Proof.
  intros Hs Hm.
  destruct (control_terms_memory target_velocity current_pulse reset c c' Hs Hm)
    as (Hm1 & Ht1 & Hv1).
  unfold control. revert Hm1 Ht1 Hv1.
  generalize (control_terms target_velocity current_pulse reset c) as c1.
  generalize (control_terms target_velocity current_pulse reset c') as c1'.
  intros c1' c1 Hm1 Ht1 Hv1.
  assert (Hs1 : control_settings c1 = control_settings c1')
    by (unfold control_memory in Hm1; congruence).
  destruct (control_antiwindup_terms c1 c1' Hs1 Ht1) as [Hd Hi].
  destruct (control_antiwindup_kept c1 (pid_duty c1)) as (Ks & Kt & Ke & Kv).
  destruct (control_antiwindup_kept c1' (pid_duty c1')) as (Ks' & Kt' & Ke' & Kv').
  destruct (control_antiwindup c1 (pid_duty c1)) as [c2 d].
  destruct (control_antiwindup c1' (pid_duty c1')) as [c2' d'].
  cbn [fst snd] in *. subst d'.
  assert (HL : duty_limiter_ c2 = duty_limiter_ c2')
    by (unfold control_settings in *; congruence).
  rewrite HL. split; [reflexivity|]. split; [|congruence].
  unfold control_memory in *. rewrite Ks, Ks', Kt, Kt', Ke, Ke', Hi. congruence.
Qed.

(** X10.  What [control] emits, and what it will emit later, depends on the
    object only through the settings, the target, the integral and the four
    cells of the estimator: two objects that agree on them hand the same
    duty to the interface and agree on them again after the call.  On a call
    that resets, the settings alone decide: the old target, the old integral
    and the old estimator are forgotten. *)
Theorem X10_control_memory (target_velocity current_pulse : double) (reset : bool)
    (c c' : VescWheelController) :
  control_settings c = control_settings c' ->
  reset = true \/ control_memory c = control_memory c' ->
  snd (control target_velocity current_pulse reset c)
  = snd (control target_velocity current_pulse reset c') /\
  control_memory (fst (control target_velocity current_pulse reset c))
  = control_memory (fst (control target_velocity current_pulse reset c')).
Proof.
  intros Hs Hm.
  destruct (control_alike target_velocity current_pulse reset c c' Hs Hm)
    as (H1 & H2 & _).
  now split.
Qed.

Lemma X10_control_memory_witness :
  let c := scenario zero_object in
  let c' := set_estimator (mkEstimator 50 (fun _ _ => 9) (fun _ => 3%float) [])
              (set_error_integ 12 (set_target_pulse 77 (set_error 5 c))) in
  control_settings c = control_settings c' /\
  snd (control 10 1000 true c) = snd (control 10 1000 true c') /\
  snd (control 10 1003 false (fst (control 10 1000 true c)))
  = snd (control 10 1003 false (fst (control 10 1000 true c'))).
Proof.
  intros c c'.
  assert (Hs : control_settings c = control_settings c') by reflexivity.
  destruct (X10_control_memory 10 1000 true c c' Hs (or_introl eq_refl)) as [H1 H2].
  assert (Hs2 : control_settings (fst (control 10 1000 true c))
                = control_settings (fst (control 10 1000 true c')))
    by (unfold control_memory in H2; congruence).
  exact (conj Hs (conj H1
           (proj1 (X10_control_memory 10 1003 false _ _ Hs2 (or_intror H2))))).
Defined.

Lemma integrate_position_alike (c c' : VescWheelController) :
  alike c c' -> alike (integrate_position c) (integrate_position c').
Proof.
  destruct c as [kp ki kd icl dl aw rate pp gr tc rs ps vr pos prev vs es tp
                 er ed ei eip est].
  destruct c' as [kp' ki' kd' icl' dl' aw' rate' pp' gr' tc' rs' ps' vr' pos' prev'
                  vs' es' tp' er' ed' ei' eip' est'].
  unfold alike, control_memory, control_settings, tick_view. fields.
  intros (Hs & Hv & Hm).
  injection Hs as -> -> -> -> -> -> -> ->.
  injection Hv as -> -> -> -> -> ->.
  unfold integrate_position. fields.
  destruct (_ <? _)%float; fields.
  - split; [reflexivity|]. split; [reflexivity|]. now left.
  - split; [reflexivity|]. split; [reflexivity|].
    destruct Hm as [Hm|Hm]; [now left|right; congruence].
Qed.

Lemma set_reset_alike (v : bool) (c c' : VescWheelController) :
  control_settings c = control_settings c' ->
  (velocity_reference_ c, position_pulse_ c, prev_position_pulse_ c,
   position_sens_ c, velocity_sens_ c)
  = (velocity_reference_ c', position_pulse_ c', prev_position_pulse_ c',
     position_sens_ c', velocity_sens_ c') ->
  control_memory c = control_memory c' ->
  alike (set_reset v c) (set_reset v c').
Proof.
  intros Hs Hv Hm. unfold alike, tick_view, control_memory, control_settings in *.
  fields. split; [exact Hs|]. split; [congruence|]. right. exact Hm.
Qed.

Lemma callback_alike (c c' : VescWheelController) :
  alike c c' ->
  snd (controlTimerCallback c) = snd (controlTimerCallback c') /\
  alike (fst (controlTimerCallback c)) (fst (controlTimerCallback c')).
Proof.
  intros Ha.
  assert (Hv0 : tick_view c = tick_view c') by apply Ha.
  pose proof (integrate_position_alike c c' Ha) as (Hs & Hv & Hm).
  destruct (callback_state c) as [-> ->]. destruct (callback_state c') as [-> ->].
  assert (Hvr : velocity_reference_ c = velocity_reference_ c')
    by (unfold tick_view in Hv0; congruence).
  assert (Hpp : position_pulse_ c = position_pulse_ c')
    by (unfold tick_view in Hv0; congruence).
  assert (Hr : reset_ (integrate_position c) = reset_ (integrate_position c'))
    by (unfold tick_view in Hv; congruence).
  rewrite <- Hvr, <- Hpp, <- Hr.
  assert (Hm' : reset_ (integrate_position c) = true \/
                control_memory (integrate_position c)
                = control_memory (integrate_position c')) by exact Hm.
  destruct (control_alike (velocity_reference_ c) (position_pulse_ c)
              (reset_ (integrate_position c)) _ _ Hs Hm') as (Hcalls & Hmem & Hvs).
  pose proof (kept_control (velocity_reference_ c) (position_pulse_ c)
                (reset_ (integrate_position c)) (integrate_position c)) as Hk.
  pose proof (kept_control (velocity_reference_ c) (position_pulse_ c)
                (reset_ (integrate_position c)) (integrate_position c')) as Hk'.
  apply kept_fields in Hk, Hk'.
  destruct Hk as (_ & Hk2 & _ & Hk4). destruct Hk' as (_ & Hk2' & _ & Hk4').
  rewrite Hcalls. split; [reflexivity|].
  revert Hmem Hvs Hk2 Hk4 Hk2' Hk4'.
  generalize (fst (control (velocity_reference_ c) (position_pulse_ c)
                     (reset_ (integrate_position c)) (integrate_position c))) as c2.
  generalize (fst (control (velocity_reference_ c) (position_pulse_ c)
                     (reset_ (integrate_position c)) (integrate_position c'))) as c2'.
  intros c2' c2 Hmem Hvs Hk2 Hk4 Hk2' Hk4'.
  apply set_reset_alike.
  - unfold control_memory in Hmem. congruence.
  - unfold node_inputs, tick_view in *. congruence.
  - exact Hmem.
Qed.

Lemma handle_alike (event : Event) (c c' : VescWheelController) :
  alike c c' ->
  snd (handle event c) = snd (handle event c') /\
  alike (fst (handle event c)) (fst (handle event c')).
Proof.
  intros Ha. destruct event as [|packet|v|g|t|n]; cbn [handle fst snd].
  - now apply callback_alike.
  - split; [reflexivity|]. unfold updateSensor.
    destruct (String.eqb _ _); [|exact Ha].
    unfold alike, tick_view, control_memory, control_settings in *. fields.
    destruct Ha as (Hs & Hv & Hm).
    split; [exact Hs|]. split; [congruence|exact Hm].
  - split; [reflexivity|].
    unfold alike, tick_view, control_memory, control_settings, setTargetVelocity in *.
    fields. destruct Ha as (Hs & Hv & Hm).
    split; [exact Hs|]. split; [congruence|exact Hm].
  - split; [reflexivity|]. exact Ha.
  - split; [reflexivity|]. exact Ha.
  - split; [reflexivity|].
    unfold alike, tick_view, control_memory, control_settings, setMotorPolePairs in *.
    fields. destruct Ha as (Hs & Hv & Hm).
    split; [congruence|]. split; [exact Hv|].
    destruct Hm as [Hm|Hm]; [now left|right; congruence].
Qed.

Lemma run_events_alike (events : list Event) (c c' : VescWheelController) :
  alike c c' ->
  snd (run_events events c) = snd (run_events events c') /\
  alike (fst (run_events events c)) (fst (run_events events c')).
Proof.
  revert c c'. induction events as [|event rest IH]; intros c c' Ha;
    [split; [reflexivity|exact Ha]|].
  cbn [run_events].
  destruct (handle_alike event c c' Ha) as [Hcalls Ha1].
  destruct (handle event c) as [c1 calls]. destruct (handle event c') as [c1' calls'].
  cbn [fst snd] in *. destruct (IH c1 c1' Ha1) as [Hmore Ha2].
  destruct (run_events rest c1) as [c2 more].
  destruct (run_events rest c1') as [c2' more'].
  cbn [fst snd] in *. now rewrite Hcalls, Hmore.
Qed.

(** X11.  [init] does not assign the target, the error terms and the fields of
    the estimator, and it sets [reset_]: the first tick assigns them before
    anything reads them.  Once [init] has run and the pole pairs are set,
    the calls made on the interface and the position and velocity the
    getters return are the same along any sequence of events, whatever the
    object held before. *)
Theorem X11_init_complete (nh : Params) (motor_pole_pairs : Z) (events : list Event)
    (c c' : VescWheelController) :
  let run c0 := run_events events (setMotorPolePairs motor_pole_pairs (init nh c0)) in
  snd (run c) = snd (run c') /\
  getPositionSens (fst (run c)) = getPositionSens (fst (run c')) /\
  getVelocitySens (fst (run c)) = getVelocitySens (fst (run c')).
Proof.
  intros run.
  assert (Ha : alike (setMotorPolePairs motor_pole_pairs (init nh c))
                 (setMotorPolePairs motor_pole_pairs (init nh c'))).
  { split; [reflexivity|]. split; [reflexivity|]. now left. }
  destruct (run_events_alike events _ _ Ha) as [Hcalls (_ & Hv & _)].
  unfold run. split; [exact Hcalls|].
  unfold getPositionSens, getVelocitySens, tick_view in *. split; congruence.
Qed.

(** ** NaN *)

Lemma nan_spec (x : double) : not_nan x = false <-> Prim2SF x = S754_nan.
Proof.
  pose proof (not_nan_spec x) as H. destruct (not_nan x).
  - split; [discriminate|]. intros Hn. now apply H in Hn.
  - split; [|reflexivity]. intros _.
    destruct (Prim2SF x) eqn:Hx; try reflexivity;
      exfalso; assert (false = true) by (apply H; discriminate); discriminate.
Qed.

Lemma nan_add (a b : double) :
  not_nan a = false \/ not_nan b = false -> not_nan (a + b) = false.
Proof.
  intros H. destruct (not_nan (a + b)) eqn:Hn; [|reflexivity].
  apply add_not_nan in Hn. destruct Hn, H; congruence.
Qed.

Lemma nan_mul (a b : double) :
  not_nan a = false \/ not_nan b = false -> not_nan (a * b) = false.
Proof.
  intros H. destruct (not_nan (a * b)) eqn:Hn; [|reflexivity].
  apply mul_not_nan in Hn. destruct Hn, H; congruence.
Qed.

Lemma nan_sub (a b : double) :
  not_nan a = false \/ not_nan b = false -> not_nan (a - b) = false.
Proof.
  rewrite !nan_spec, sub_spec. intros [H|H]; rewrite H.
  - reflexivity.
  - now destruct (Prim2SF a) as [[|]|[|]| |s m e].
Qed.

Lemma nan_div (a b : double) :
  not_nan a = false \/ not_nan b = false -> not_nan (a / b) = false.
Proof.
  rewrite !nan_spec, div_spec. intros [H|H]; rewrite H.
  - reflexivity.
  - now destruct (Prim2SF a) as [[|]|[|]| |s m e].
Qed.

Lemma nan_ltb_l (a b : double) : not_nan a = false -> (a <? b)%float = false.
Proof.
  intros H. destruct (a <? b)%float eqn:Hc; [|reflexivity].
  apply ltb_not_nan in Hc. destruct Hc; congruence.
Qed.

Lemma nan_ltb_r (a b : double) : not_nan b = false -> (a <? b)%float = false.
Proof.
  intros H. destruct (a <? b)%float eqn:Hc; [|reflexivity].
  apply ltb_not_nan in Hc. destruct Hc; congruence.
Qed.

(** ** A pole-pair count of zero *)

Lemma zero_pole_pairs_step (pp diff : double) :
  (pp =? 0)%float = true ->
  not_nan ((if (pp / double_of_int 4 <? abs diff)%float
            then double_of_int 0 else diff) / pp) = false.
Proof.
  intros Hpp. rewrite eqb_spec in Hpp.
  change (Prim2SF 0) with (S754_zero false) in Hpp.
  destruct (Prim2SF pp) as [s|s| |s m e] eqn:Hp;
    try discriminate; try (now destruct s).
  destruct (pp / double_of_int 4 <? abs diff)%float eqn:Htest.
  - apply nan_spec. rewrite div_spec, Hp, Prim2SF_zero. reflexivity.
  - apply nan_spec. rewrite div_spec, Hp.
    rewrite ltb_spec, div_spec, abs_spec, Hp, Prim2SF_four in Htest.
    destruct (Prim2SF diff) as [sd|sd| |sd md ed]; try reflexivity;
      cbn in Htest; destruct s; discriminate.
Qed.

Lemma integrate_position_zero_pole_pairs (c : VescWheelController) :
  (num_motor_pole_pairs_ c =? 0)%float = true ->
  not_nan (position_sens_ (integrate_position c)) = false.
Proof.
  intros Hpp. unfold integrate_position.
  pose proof (zero_pole_pairs_step (num_motor_pole_pairs_ c)
                (position_pulse_ c - prev_position_pulse_ c) Hpp) as Hstep.
  destruct (_ <? _)%float; fields; apply nan_add; right;
    apply nan_mul; left; apply nan_mul; left; exact Hstep.
Qed.

Lemma callback_position (c : VescWheelController) :
  position_sens_ (fst (controlTimerCallback c))
  = position_sens_ (integrate_position c).
Proof.
  destruct (callback_state c) as [-> _].
  pose proof (kept_control (velocity_reference_ c) (position_pulse_ c)
                (reset_ (integrate_position c)) (integrate_position c)) as Hk.
  apply kept_fields in Hk. destruct Hk as (_ & _ & _ & Hk).
  revert Hk.
  generalize (fst (control (velocity_reference_ c) (position_pulse_ c)
                     (reset_ (integrate_position c)) (integrate_position c))) as c2.
  intros c2 Hk. now rewrite <- Hk.
Qed.

Lemma handle_nan_position (event : Event) (c : VescWheelController) :
  not_nan (position_sens_ c) = false ->
  not_nan (position_sens_ (fst (handle event c))) = false.
Proof.
  intros Hn. destruct event as [|packet|v|g|t|n]; cbn [handle fst]; try exact Hn.
  - rewrite callback_position. unfold integrate_position.
    destruct (_ <? _)%float; fields; apply nan_add; left; exact Hn.
  - unfold updateSensor. now destruct (String.eqb _ _).
Qed.

Lemma run_events_nan_position (events : list Event) (c : VescWheelController) :
  not_nan (position_sens_ c) = false ->
  not_nan (position_sens_ (fst (run_events events c))) = false.
Proof.
  revert c. induction events as [|event rest IH]; intros c Hn; [exact Hn|].
  cbn [run_events]. pose proof (handle_nan_position event c Hn) as H1.
  destruct (handle event c) as [c1 calls]. cbn [fst] in H1.
  specialize (IH c1 H1). now destruct (run_events rest c1).
Qed.

(** X14.  With a pole-pair count of zero the position estimate is lost on the
    first tick: whatever the pulse counts are, the tick divides by the
    count and adds a NaN to [position_sens_].  Nothing repairs it
    afterwards: [getPositionSens] returns a NaN after any further events,
    also when the pole pairs are set in the meantime. *)
Theorem X14_zero_pole_pairs (events : list Event) (c : VescWheelController) :
  (num_motor_pole_pairs_ c =? 0)%float = true ->
  not_nan (getPositionSens (fst (run_events (timer_fires :: events) c))) = false.
Proof.
  intros Hpp. unfold getPositionSens. cbn [run_events handle].
  pose proof (callback_position c) as H1.
  pose proof (integrate_position_zero_pole_pairs c Hpp) as H2.
  destruct (controlTimerCallback c) as [c1 calls]. cbn [fst] in H1.
  rewrite <- H1 in H2.
  pose proof (run_events_nan_position events c1 H2) as H3.
  now destruct (run_events events c1).
Qed.

Lemma X14_zero_pole_pairs_witness :
  let c := setMotorPolePairs 0 (init scenario_params zero_object) in
  let events := [packet_arrives (mkPacket "Values"%string 0 0 1000);
                 pole_pairs_given 7; timer_fires] in
  (num_motor_pole_pairs_ c =? 0)%float = true /\
  not_nan (getPositionSens (fst (run_events (timer_fires :: events) c))) = false.
Proof.
  intros c events.
  assert (H : (num_motor_pole_pairs_ c =? 0)%float = true) by reflexivity.
  exact (conj H (X14_zero_pole_pairs events c H)).
Defined.

(** The error of line 98 and the target of lines 72 to 93, on a call that
    does not reset. *)
Lemma control_terms_error (target_velocity current_pulse : double) (reset : bool)
    (c : VescWheelController) :
  error_ (control_terms target_velocity current_pulse reset c)
  = (target_pulse_ (control_terms target_velocity current_pulse reset c)
     - current_pulse)%float.
Proof.
  unfold control_terms.
  generalize (control_resync target_velocity current_pulse reset c) as r. intros r.
  unfold control_pid, call_counterTD. fields.
  now destruct (counterTD current_pulse false (estimator r)).
Qed.

Lemma control_terms_target (target_velocity current_pulse : double)
    (c : VescWheelController) :
  target_pulse_ (control_terms target_velocity current_pulse false c)
  = limit_error
      (overflow_check
         (target_pulse_ c
          + target_velocity * num_motor_pole_pairs_ c / (double_of_int 2 * M_PI)
            / control_rate_ c)%float)
      current_pulse (num_motor_pole_pairs_ c).
Proof.
  unfold control_terms. now rewrite target_pulse_control_pid.
Qed.

Lemma overflow_check_nan (t : double) :
  not_nan t = false -> overflow_check t = t.
Proof.
  intros H. unfold overflow_check.
  now rewrite (nan_ltb_r _ _ H), (nan_ltb_l _ _ H).
Qed.

Lemma limit_error_nan (t current_pulse limit : double) :
  not_nan t = false -> limit_error t current_pulse limit = t.
Proof.
  intros H. unfold limit_error.
  assert (Hd : not_nan (t - current_pulse) = false) by (apply nan_sub; now left).
  now rewrite (nan_ltb_r _ _ Hd), (nan_ltb_l _ _ Hd).
Qed.

Lemma poisoned_integral (target_velocity current_pulse : double)
    (c : VescWheelController) :
  poisoned target_velocity current_pulse c = true ->
  not_nan (error_integ_ (control_terms target_velocity current_pulse false c)) = false.
Proof.
  intros Hp.
  destruct (control_terms_fields target_velocity current_pulse c) as (_ & -> & _).
  rewrite control_terms_error, control_terms_target.
  unfold poisoned in Hp. apply negb_true_iff in Hp.
  destruct (not_nan (error_integ_ c)) eqn:Hi; [|apply nan_add; now left].
  apply nan_add. right. apply nan_div. left.
  destruct (not_nan current_pulse) eqn:Hc; [|apply nan_sub; now right].
  apply nan_sub. left.
  assert (Ht : not_nan (target_pulse_ c
                        + target_velocity * num_motor_pole_pairs_ c
                          / (double_of_int 2 * M_PI) / control_rate_ c)%float = false).
  { destruct (not_nan (target_pulse_ c)) eqn:Ht; [|apply nan_add; now left].
    destruct (not_nan target_velocity) eqn:Hv; [discriminate|].
    apply nan_add. right. apply nan_div. left. apply nan_div. left.
    apply nan_mul. now left. }
  now rewrite (overflow_check_nan _ Ht), (limit_error_nan _ _ _ Ht).
Qed.

Lemma std_clamp_nan (v lo hi : double) :
  not_nan v = false -> std_clamp v lo hi = v.
Proof.
  intros H. unfold std_clamp, std_max, std_min.
  rewrite (nan_ltb_l _ _ H). now rewrite (nan_ltb_r _ _ H).
Qed.

(** With a NaN integral the raw duty is a NaN, and neither the roll-back nor
    the clamp of the integral term fires. *)
Lemma control_antiwindup_nan (c1 : VescWheelController) :
  not_nan (error_integ_ c1) = false ->
  control_antiwindup c1 (pid_duty c1) = (c1, pid_duty c1) /\
  not_nan (pid_duty c1) = false.
Proof.
  intros Hi.
  assert (Hk : not_nan (ki_ c1 * error_integ_ c1) = false)
    by (apply nan_mul; now right).
  assert (Hd : not_nan (pid_duty c1) = false).
  { unfold pid_duty. apply nan_add. left. apply nan_add. now right. }
  split; [|exact Hd].
  unfold control_antiwindup, windup_rollback, integ_clamp.
  destruct (antiwindup_ c1); [|reflexivity].
  rewrite (nan_ltb_r _ _ Hd), (nan_ltb_l _ _ Hd).
  now rewrite (nan_ltb_r _ _ Hk), (nan_ltb_l _ _ Hk).
Qed.

Lemma control_poisoned (target_velocity current_pulse : double)
    (c : VescWheelController) :
  poisoned target_velocity current_pulse c = true ->
  not_nan (error_integ_ (fst (control target_velocity current_pulse false c))) = false /\
  exists duty,
    snd (control target_velocity current_pulse false c)
    = [setDutyCycle (emitted_duty target_velocity duty)] /\
    not_nan duty = false.
Proof.
  intros Hp. pose proof (poisoned_integral _ _ _ Hp) as Hi.
  unfold control. revert Hi.
  generalize (control_terms target_velocity current_pulse false c) as c1.
  intros c1 Hi. destruct (control_antiwindup_nan c1 Hi) as [-> Hd].
  cbn [fst snd]. split; [exact Hi|].
  eexists. split; [reflexivity|]. now rewrite std_clamp_nan.
Qed.

Lemma run_control_nan (inputs : list (double * double)) (c : VescWheelController) :
  not_nan (error_integ_ c) = false ->
  not_nan (error_integ_ (run_control inputs c)) = false.
Proof.
  revert c. induction inputs as [|[tv cur] rest IH]; intros c Hi; [exact Hi|].
  rewrite run_control_cons. apply IH.
  apply control_poisoned. unfold poisoned. now rewrite Hi.
Qed.

(** X13.  A NaN is not cleared by a call that does not reset.  When the
    integral or the target of the object, the pulse count or the commanded
    velocity of a tick is a NaN, that call leaves a NaN in the integral and
    hands a NaN duty to the interface unless the dead band applies (the
    clamp of the duty lets it through), and the integral is still a NaN
    after any number of further calls that do not reset. *)
Theorem X13_nan_is_sticky (target_velocity current_pulse : double)
    (rest : list (double * double)) (c : VescWheelController) :
  poisoned target_velocity current_pulse c = true ->
  (exists duty,
     snd (control target_velocity current_pulse false c)
     = [setDutyCycle (emitted_duty target_velocity duty)] /\
     not_nan duty = false) /\
  not_nan (error_integ_
             (run_control ((target_velocity, current_pulse) :: rest) c)) = false.
Proof.
  intros Hp. destruct (control_poisoned _ _ _ Hp) as [Hi Hd].
  split; [exact Hd|]. rewrite run_control_cons. now apply run_control_nan.
Qed.

Lemma X13_nan_is_sticky_witness :
  let c := fst (control 10 1000 true (scenario zero_object)) in
  poisoned 10 nan c = true /\
  snd (control 10 nan false c) = [setDutyCycle nan] /\
  not_nan (error_integ_ (run_control [(10, nan); (10, 1001); (10, 1002)]%float c))
  = false.
Proof.
  intros c.
  assert (Hp : poisoned 10 nan c = true) by (vm_compute; reflexivity).
  refine (conj Hp (conj _ (proj2 (X13_nan_is_sticky 10 nan
                                   [(10, 1001); (10, 1002)]%float c Hp)))).
  vm_compute. reflexivity.
Defined.

Lemma SFabs_le_between (x l : spec_float) :
  SFleb (SFabs x) l = true ->
  SFltb l x = false /\ SFltb x (SFopp l) = false.
Proof.
  unfold SFleb, SFltb.
  destruct x as [[|]|[|]| |[|] mx ex], l as [[|]|[|]| |[|] ml el];
    cbn; try (intros; split; congruence).
  all: rewrite ?(Z.compare_antisym ex el), ?(compare_cont_antisym mx ml).
  all: destruct (Z.compare ex el); cbn; try (intros; split; congruence).
  all: destruct (Pos.compare_cont Eq mx ml); cbn; intros; split; congruence.
Qed.

Lemma abs_le_between (x l : double) :
  (abs x <=? l)%float = true ->
  (l <? x)%float = false /\ (x <? - l)%float = false.
Proof.
  rewrite leb_spec, !ltb_spec, abs_spec, opp_spec. apply SFabs_le_between.
Qed.

(** A count within the range of [long] passes the overflow check. *)
Lemma overflow_check_in_range (t : double) :
  (abs t <=? double_of_int LONG_MAX)%float = true -> overflow_check t = t.
Proof.
  intros H. apply abs_le_between in H. destruct H as [H1 H2].
  unfold overflow_check. rewrite H1.
  change (double_of_int LONG_MIN) with (- double_of_int LONG_MAX)%float.
  now rewrite H2.
Qed.

(** The difference of a finite double and itself is +0. *)
Lemma SFsub_diag (x : spec_float) :
  (forall s, x <> S754_infinity s) -> x <> S754_nan ->
  SF64sub x x = S754_zero false.
Proof.
  intros Hinf Hnan. destruct x as [[|]|s| |s m e]; try reflexivity.
  - now elim (Hinf s).
  - congruence.
  - unfold SF64sub, SFsub. rewrite Z.sub_diag. reflexivity.
Qed.

Lemma double_sub_diag (x : double) :
  (abs x <=? double_of_int LONG_MAX)%float = true -> (x - x)%float = 0%float.
Proof.
  intros H. apply Prim2SF_inj. rewrite sub_spec.
  change (Prim2SF 0) with (S754_zero false).
  rewrite leb_spec, abs_spec, Prim2SF_LONG_MAX in H.
  apply SFsub_diag.
  - intros s Hs. rewrite Hs in H. discriminate.
  - intros Hs. rewrite Hs in H. discriminate.
Qed.

Lemma limit_error_diag (x limit : double) :
  (x - x)%float = 0%float -> (0 <=? limit)%float = true ->
  limit_error x x limit = x.
Proof.
  intros Hx Hl. unfold limit_error. rewrite Hx.
  rewrite (ltb_false_of_leb _ _ Hl).
  assert (H : (0 <? - limit)%float = false).
  { rewrite ltb_spec, opp_spec. rewrite leb_spec in Hl.
    change (Prim2SF 0) with (S754_zero false) in *.
    destruct (Prim2SF limit) as [[|]|[|]| |[|] m e]; try discriminate; reflexivity. }
  now rewrite H.
Qed.

Lemma control_antiwindup_errors (c : VescWheelController) (duty : double) :
  let c2 := fst (control_antiwindup c duty) in
  error_ c2 = error_ c /\ error_dt_ c2 = error_dt_ c /\
  error_integ_prev_ c2 = error_integ_prev_ c.
Proof.
  unfold control_antiwindup, windup_rollback, integ_clamp.
  destruct (antiwindup_ c); [|repeat split].
  repeat match goal with
    | |- context [if ?b then _ else _] => destruct b
    end; repeat split.
Qed.

Lemma control_pid_prev (target_velocity current_pulse : double)
    (c : VescWheelController) :
  error_integ_prev_ (control_pid target_velocity current_pulse c) = error_integ_ c.
Proof.
  unfold control_pid, call_counterTD.
  now destruct (counterTD current_pulse false (estimator c)).
Qed.

Lemma control_terms_reset_prev (target_velocity current_pulse : double)
    (c : VescWheelController) :
  error_integ_prev_ (control_terms target_velocity current_pulse true c) = 0%float /\
  target_pulse_ (control_resync target_velocity current_pulse true c) = current_pulse.
Proof.
  pose proof (control_resync_reset target_velocity current_pulse c) as Hr.
  unfold control_terms. rewrite control_pid_prev. revert Hr.
  generalize (control_resync target_velocity current_pulse true c) as r.
  intros r Hr. unfold control_memory in Hr. fields. split; congruence.
Qed.

(** X12.  A call of [control] that resets, on a pulse count within the range
    of [long] and with a pole-pair count that is not negative, takes the
    count as the new target whatever the old target and the commanded
    velocity were: it leaves [target_pulse_] equal to the count, the
    position error 0 and the previous integral 0. *)
Theorem X12_reset_resync (target_velocity current_pulse : double)
    (c : VescWheelController) :
  (abs current_pulse <=? double_of_int LONG_MAX)%float = true ->
  (0 <=? num_motor_pole_pairs_ c)%float = true ->
  let c' := fst (control target_velocity current_pulse true c) in
  target_pulse_ c' = current_pulse /\
  error_ c' = 0%float /\
  error_integ_prev_ c' = 0%float.
Proof.
  intros Hcur Hpp c'.
  pose proof (double_sub_diag current_pulse Hcur) as Hdiag.
  destruct (control_terms_reset_prev target_velocity current_pulse c) as [Hprev Ht].
  assert (Htarget : target_pulse_ c' = current_pulse).
  { unfold c'. rewrite target_pulse_control, Ht.
    rewrite (overflow_check_in_range _ Hcur).
    now apply limit_error_diag. }
  split; [exact Htarget|].
  pose proof (control_terms_error target_velocity current_pulse true c) as Herr.
  assert (Ht1 : target_pulse_ (control_terms target_velocity current_pulse true c)
                = current_pulse).
  { unfold control_terms. rewrite target_pulse_control_pid. fields.
    rewrite Ht.
    rewrite (overflow_check_in_range _ Hcur). now apply limit_error_diag. }
  rewrite Ht1, Hdiag in Herr.
  unfold c', control. revert Herr Hprev.
  generalize (control_terms target_velocity current_pulse true c) as c1.
  intros c1 Herr Hprev.
  destruct (control_antiwindup_errors c1 (pid_duty c1)) as (He & _ & Hp).
  destruct (control_antiwindup c1 (pid_duty c1)) as [c2 duty]. cbn [fst] in *.
  split; congruence.
Qed.

Lemma X12_reset_resync_witness :
  let c := fst (control 10 1003 false
                  (fst (control 10 1000 true (scenario zero_object)))) in
  let c' := fst (control (-3) 52000 true c) in
  (abs 52000 <=? double_of_int LONG_MAX)%float = true /\
  (0 <=? num_motor_pole_pairs_ c)%float = true /\
  (target_pulse_ c =? 52000)%float = false /\
  target_pulse_ c' = 52000%float /\ error_ c' = 0%float /\
  error_integ_prev_ c' = 0%float.
Proof.
  intros c c'.
  assert (H1 : (abs 52000 <=? double_of_int LONG_MAX)%float = true) by reflexivity.
  assert (H2 : (0 <=? num_motor_pole_pairs_ c)%float = true)
    by (vm_compute; reflexivity).
  assert (H3 : (target_pulse_ c =? 52000)%float = false) by (vm_compute; reflexivity).
  exact (conj H1 (conj H2 (conj H3 (X12_reset_resync (-3) 52000 c H1 H2)))).
Defined.

Lemma integrate_position_step (c : VescWheelController) :
  pulse_jump c = false ->
  position_sens_ (integrate_position c)
  = (position_sens_ c
     + position_step (position_pulse_ c - prev_position_pulse_ c)
         (num_motor_pole_pairs_ c))%float.
Proof.
  unfold pulse_jump, integrate_position. intros ->. reflexivity.
Qed.

Lemma callback_pulses (c : VescWheelController) :
  settings (fst (controlTimerCallback c)) = settings c /\
  node_inputs (fst (controlTimerCallback c)) = node_inputs c.
Proof.
  destruct (callback_state c) as [-> _].
  pose proof (kept_control (velocity_reference_ c) (position_pulse_ c)
                (reset_ (integrate_position c)) (integrate_position c)) as Hk.
  apply kept_fields in Hk. destruct Hk as (Hk1 & Hk2 & _).
  destruct (integrate_position_kept c) as [Hs Hin]. rewrite Hs in Hk1.
  rewrite Hin in Hk2. revert Hk1 Hk2.
  generalize (fst (control (velocity_reference_ c) (position_pulse_ c)
                     (reset_ (integrate_position c)) (integrate_position c))) as c2.
  intros c2 Hk1 Hk2.
  destruct (set_reset_kept (abs (velocity_reference_ c) <? 0.0001)%float c2)
    as (Hr1 & Hr2 & _).
  split; congruence.
Qed.

(** X15.  The tick does not use up the sample: it leaves [position_pulse_] and
    [prev_position_pulse_] as they are.  When the timer fires twice with no
    packet in between, and the pulse difference is not a jump, the same
    difference is added to the position twice. *)
Theorem X15_position_counted_twice (c : VescWheelController) :
  pulse_jump c = false ->
  let step := position_step (position_pulse_ c - prev_position_pulse_ c)
                (num_motor_pole_pairs_ c) in
  getPositionSens (fst (controlTimerCallback c))
  = (position_sens_ c + step)%float /\
  getPositionSens (fst (controlTimerCallback (fst (controlTimerCallback c))))
  = (position_sens_ c + step + step)%float.
Proof.
  intros Hj step. unfold getPositionSens.
  assert (H1 : position_sens_ (fst (controlTimerCallback c))
               = (position_sens_ c + step)%float).
  { rewrite callback_position. now apply integrate_position_step. }
  split; [exact H1|].
  destruct (callback_pulses c) as [Hs Hin].
  rewrite callback_position. revert H1 Hs Hin.
  generalize (fst (controlTimerCallback c)) as c1. intros c1 H1 Hs Hin.
  assert (Hpp : num_motor_pole_pairs_ c1 = num_motor_pole_pairs_ c)
    by (unfold settings in Hs; congruence).
  assert (Hpos : position_pulse_ c1 = position_pulse_ c)
    by (unfold node_inputs in Hin; congruence).
  assert (Hprev : prev_position_pulse_ c1 = prev_position_pulse_ c)
    by (unfold node_inputs in Hin; congruence).
  rewrite integrate_position_step.
  - rewrite H1, Hpp, Hpos, Hprev. reflexivity.
  - unfold pulse_jump in *. now rewrite Hpp, Hpos, Hprev.
Qed.

Lemma X15_position_counted_twice_witness :
  let c := updateSensor (mkPacket "Values"%string 0 0 1001)
             (updateSensor (mkPacket "Values"%string 0 0 1000)
                (scenario zero_object)) in
  pulse_jump c = false /\
  getPositionSens (fst (controlTimerCallback c))
  = (0 + position_step 1 7)%float /\
  getPositionSens (fst (controlTimerCallback (fst (controlTimerCallback c))))
  = (0 + position_step 1 7 + position_step 1 7)%float.
Proof.
  intros c.
  assert (H : pulse_jump c = false) by (vm_compute; reflexivity).
  exact (conj H (X15_position_counted_twice c H)).
Defined.



(** X17.  The effort is the motor current of the last packet of values times
    the torque constant over the gear ratio, with the constants the setters
    gave, in whichever order they were called and whether [init] ran before
    or after them; a tick of the timer does not touch it, and a packet of
    another kind leaves the whole object as it is. *)
Theorem X17_effort (packet other : VescPacket) (torque_const gear_ratio : double)
    (nh : Params) (c : VescWheelController) :
  getName packet = "Values"%string -> getName other <> "Values"%string ->
  let effort := (getMotorCurrent packet * torque_const / gear_ratio)%float in
  let c1 := init nh (setGearRatio gear_ratio (setTorqueConst torque_const c)) in
  let c2 := setTorqueConst torque_const (setGearRatio gear_ratio (init nh c)) in
  getEffortSens (updateSensor packet c1) = effort /\
  getEffortSens (updateSensor packet c2) = effort /\
  getEffortSens (fst (controlTimerCallback (updateSensor packet c1))) = effort /\
  updateSensor other (updateSensor packet c1) = updateSensor packet c1.
Proof.
  intros Hp Ho effort c1 c2.
  assert (H1 : getEffortSens (updateSensor packet c1) = effort)
    by (unfold updateSensor; rewrite Hp; reflexivity).
  split; [exact H1|].
  split; [unfold updateSensor; rewrite Hp; reflexivity|].
  split.
  - destruct (callback_pulses (updateSensor packet c1)) as [_ Hin].
    unfold getEffortSens in *. unfold node_inputs in Hin. congruence.
  - unfold updateSensor at 1. apply String.eqb_neq in Ho. now rewrite Ho.
Qed.

Lemma X17_effort_witness :
  let packet := mkPacket "Values"%string 3 0 1000 in
  let other := mkPacket "FWVersion"%string 0 0 0 in
  getEffortSens
    (fst (controlTimerCallback
            (updateSensor other
               (updateSensor packet
                  (init scenario_params
                     (setGearRatio 4 (setTorqueConst 2 zero_object)))))))
  = (3 * 2 / 4)%float.
Proof.
  intros packet other.
  assert (Hp : getName packet = "Values"%string) by reflexivity.
  assert (Ho : getName other <> "Values"%string) by discriminate.
  destruct (X17_effort packet other 2 4 scenario_params zero_object Hp Ho)
    as (_ & _ & H3 & H4).
  rewrite H4. exact H3.
Defined.

Lemma control_resync_i_clamp (target_velocity current_pulse v : double)
    (reset : bool) (c : VescWheelController) :
  control_resync target_velocity current_pulse reset (set_i_clamp v c)
  = set_i_clamp v (control_resync target_velocity current_pulse reset c).
Proof.
  unfold control_resync, call_counterTD. destruct reset; [|reflexivity].
  cbn [estimator set_i_clamp set_target_pulse set_error set_error_dt
       set_error_integ set_error_integ_prev].
  now destruct (counterTD current_pulse true (estimator c)) as [e1 o1].
Qed.

Lemma control_pid_i_clamp (target_velocity current_pulse v : double)
    (c : VescWheelController) :
  control_pid target_velocity current_pulse (set_i_clamp v c)
  = set_i_clamp v (control_pid target_velocity current_pulse c).
Proof.
  unfold control_pid, call_counterTD. cbn [estimator set_i_clamp].
  now destruct (counterTD current_pulse false (estimator c)) as [e1 o1].
Qed.

Lemma control_terms_i_clamp (target_velocity current_pulse v : double) (reset : bool)
    (c : VescWheelController) :
  control_terms target_velocity current_pulse reset (set_i_clamp v c)
  = set_i_clamp v (control_terms target_velocity current_pulse reset c).
Proof.
  unfold control_terms. rewrite control_resync_i_clamp.
  cbn [num_motor_pole_pairs_ set_i_clamp].
  generalize (control_resync target_velocity current_pulse reset c) as r. intros r.
  rewrite <- control_pid_i_clamp. reflexivity.
Qed.

(** X18.  The bound [i_clamp_] is read only inside the anti-windup block.
    With anti-windup off it has no effect: [control] hands the same duty to
    the interface and leaves the same object, whatever the bound is, and the
    integral is the plain sum of line 100, neither rolled back nor
    clamped. *)
Theorem X18_i_clamp_needs_antiwindup (target_velocity current_pulse v : double)
    (reset : bool) (c : VescWheelController) :
  antiwindup_ c = false ->
  snd (control target_velocity current_pulse reset (set_i_clamp v c))
  = snd (control target_velocity current_pulse reset c) /\
  fst (control target_velocity current_pulse reset (set_i_clamp v c))
  = set_i_clamp v (fst (control target_velocity current_pulse reset c)) /\
  fst (control target_velocity current_pulse reset c)
  = control_terms target_velocity current_pulse reset c.
Proof.
  intros Ha.
  assert (Ha1 : antiwindup_ (control_terms target_velocity current_pulse reset c)
                = false).
  { pose proof (kept_control_terms target_velocity current_pulse reset c) as Hk.
    apply kept_fields in Hk. destruct Hk as (Hk & _).
    unfold settings in Hk. congruence. }
  unfold control. rewrite control_terms_i_clamp. revert Ha1.
  generalize (control_terms target_velocity current_pulse reset c) as c1.
  intros c1 Ha1. unfold control_antiwindup.
  cbn [antiwindup_ set_i_clamp]. rewrite Ha1. cbn [fst snd].
  repeat split.
Qed.

Lemma X18_i_clamp_needs_antiwindup_witness :
  let c := init (mkParams None None None None None (Some false) None)
             (setMotorPolePairs 7 zero_object) in
  antiwindup_ c = false /\
  snd (control 10 1003 false (set_i_clamp 0 c)) = snd (control 10 1003 false c).
Proof.
  intros c.
  assert (H : antiwindup_ c = false) by reflexivity.
  exact (conj H (proj1 (X18_i_clamp_needs_antiwindup 10 1003 0 false c H))).
Defined.
